(** * p3d2gmsh: the mesh assembly engine of [p3d2gmsh.py]

    A shallow embedding of the converter from multi-block PLOT3D grids
    (plus a neutral map file naming the boundary faces) to Gmsh meshes,
    and the properties of its node numbering, element generation,
    physical groups and neutral-map-file reader.

    Python integers are unbounded, so they are [Z] without wrap-around.
    Exceptions are values of [exn]; a method of [GmshFile] is a function
    from the object's state to an outcome and the state it leaves behind,
    since a raised exception does not undo earlier mutations. *)

From Stdlib Require Import ZArith List String Ascii Bool Lia DecimalString FinFun.
Import ListNotations.
Open Scope Z_scope.

Set Implicit Arguments.

(** ** Python values used by the script *)

Inductive exn_class := IndexError | ValueError | AttributeError | TypeError.

(** A raised exception: its class and its message.  Messages of the
    exceptions raised by the script itself are verbatim; those raised by
    the interpreter are given without the offending value. *)
Record exn := Raise { exn_cls : exn_class; exn_msg : string }.

Definition result (A : Type) : Type := (exn + A)%type.

Definition ok {A} (a : A) : result A := inr a.
Definition throw {A} (c : exn_class) (m : string) : result A := inl (Raise c m).

Definition rbind {A B} (r : result A) (f : A -> result B) : result B :=
  match r with
  | inl e => inl e
  | inr a => f a
  end.

(** [xrange(a, b)]: the integers from [a] up to [b - 1], none when [b <= a].
    This is [xrange] on bounds that fit a C long, as the lengths of lists and
    the extents of arrays do; on other bounds the interpreter raises
    [OverflowError], so a property of a loop over bounds read from the input
    carries [fits_xrange] as a hypothesis. *)
Definition xrange (a b : Z) : list Z :=
  map (fun n => a + Z.of_nat n) (seq 0 (Z.to_nat (b - a))).

(** The largest C long is at least [2^31 - 1] on every platform the script
    runs on; an integer that fits these 32 bits fits the long of each. *)
Definition long_max : Z := 2 ^ 31 - 1.

Definition fits_long (z : Z) : Prop := - long_max - 1 <= z <= long_max.

(** [xrange(a, b)] raises no [OverflowError]: both bounds and the number of
    items fit a C long. *)
Definition fits_xrange (a b : Z) : Prop :=
  fits_long a /\ fits_long b /\ b - a <= long_max.

(** [l[n]] on a list or tuple: a negative index counts from the end, and an
    index outside [-len, len) raises [IndexError]. *)
Definition py_getitem {A} (kind : string) (l : list A) (n : Z) : result A :=
  let m := if n <? 0 then n + Z.of_nat (List.length l) else n in
  match (if 0 <=? m then nth_error l (Z.to_nat m) else None) with
  | Some a => ok a
  | None => throw IndexError (kind ++ " index out of range")%string
  end.

(** ['%d' % n] and ['{0:d}'.format(n)]. *)
Definition str_of_int (n : Z) : string := NilZero.string_of_int (Z.to_int n).

(** ** The structured grid: [P3DfmtFile] *)

Section Grid.

Context {coord : Type}.

(** One entry of [coords]: the arrays [x], [y], [z] of a block.  [load]
    allocates the three with one shape [(idim, jdim, kdim)]; the arrays are
    read at in-range indices only, so each is a function of [(i, j, k)]. *)
Record Block := mkBlock {
  shape : Z * Z * Z;
  xs : Z -> Z -> Z -> coord;
  ys : Z -> Z -> Z -> coord;
  zs : Z -> Z -> Z -> coord
}.

(** A [P3DfmtFile] whose [coords] is a list of blocks: one that [load]
    filled, or one constructed with [coords=...]; [nblocks] is what the
    object says, and need not be the length of the list.  The object that
    [P3DfmtFile()] builds without coordinates has [coords = None] and is not
    of this type; see [idims] for the accessors on it. *)
Record P3DfmtFile := mkP3D {
  nblocks : Z;
  coords : list Block
}.

(** What [load] establishes: one coordinate triple per declared block, and
    the extents numpy accepts for an array. *)
Definition shape_ok (b : Block) : Prop :=
  let '(di, dj, dk) := shape b in 0 <= di /\ 0 <= dj /\ 0 <= dk.

Definition loaded (f : P3DfmtFile) : Prop :=
  nblocks f = Z.of_nat (List.length (coords f)) /\ Forall shape_ok (coords f).

Definition block_size (b : Block) : Z :=
  let '(di, dj, dk) := shape b in di * dj * dk.

(** The loop [for idx in xrange(n): basen += di*dj*dk] of [_p3d_node_id]. *)
Fixpoint sum_sizes (f : P3DfmtFile) (idxs : list Z) (basen : Z) : result Z :=
  match idxs with
  | [] => ok basen
  | idx :: rest =>
      rbind (py_getitem "list" (coords f) idx) (fun blk =>
      let '(di, dj, dk) := shape blk in
      sum_sizes f rest (basen + di * dj * dk))
  end.

Definition _p3d_node_id (f : P3DfmtFile) (n i j k : Z) : result Z :=
  if nblocks f <=? n then
    throw IndexError ("Block number " ++ str_of_int n ++ " is out of range.")%string
  else
    rbind (if 1 <? nblocks f then sum_sizes f (xrange 0 n) 1 else ok 1)
      (fun basen =>
    rbind (py_getitem "list" (coords f) n) (fun blk =>
    let '(_, dj, dk) := shape blk in
    ok (basen + k + dk * j + dk * dj * i))).

(** The offset of block [n]: the sizes of the blocks before it. *)
Definition offset (f : P3DfmtFile) (n : Z) : Z :=
  fold_right Z.add 0 (map block_size (firstn (Z.to_nat n) (coords f))).

Definition in_bounds (b : Block) (i j k : Z) : Prop :=
  let '(di, dj, dk) := shape b in
  0 <= i < di /\ 0 <= j < dj /\ 0 <= k < dk.

End Grid.

Arguments Block : clear implicits.
Arguments P3DfmtFile : clear implicits.

(** ** The boundary records of a neutral map file *)

(** One entry of [NeutralMapFile.boundaries]: the tuple
    [(label, int, ..., int)] the reader builds from a line, with at most six
    integers.  Position [n >= 1] of the tuple is position [n - 1] of [ints]. *)
Record bdry := mkBdry {
  label : string;
  ints : list Z
}.

(** [bdry[n]] for [n >= 1]. *)
Definition bdry_item (b : bdry) (n : nat) : result Z :=
  match nth_error (ints b) (n - 1) with
  | Some v => ok v
  | None => throw IndexError "tuple index out of range"
  end.

(** [s1, e1, s2, e2 = bdry[3:7]]: the slice holds what the tuple has at
    positions 3 to 6, and unpacking it into four names needs all four. *)
Definition unpack4 (b : bdry) : result (Z * Z * Z * Z) :=
  match firstn 4 (skipn 2 (ints b)) with
  | [s1; e1; s2; e2] => ok (s1, e1, s2, e2)
  | sl =>
      let n := Z.of_nat (List.length sl) in
      throw ValueError ("need more than " ++ str_of_int n
                        ++ (if (n =? 1)%Z then " value" else " values")
                        ++ " to unpack")%string
  end.

(** ** The mesh under construction: [GmshFile] *)

Section Gmsh.

Context {coord : Type}.

Definition node : Type := Z * coord * coord * coord.

(** An element is the list [[el_id, type, ntags, group, -1, n1, ...]]. *)
Definition element : Type := list Z.

(** A physical group is the tuple [(dimension, id, name)]. *)
Definition group : Type := Z * Z * string.

Definition group_dim (g : group) : Z := fst (fst g).
Definition group_id (g : group) : Z := snd (fst g).
Definition group_name (g : group) : string := snd g.

Record GmshFile := mkGmsh {
  element_id : Z;
  nodes : list node;
  elements : list element;
  groups : list group
}.

(** [GmshFile()]: no nodes, elements or groups, the counter at 0. *)
Definition GmshFile_new : GmshFile := mkGmsh 0 [] [] [].

(** A method: from the state of [self] to an outcome and the state left. *)
Definition M (A : Type) : Type := GmshFile -> result A * GmshFile.

Definition ret {A} (a : A) : M A := fun s => (ok a, s).

Definition bind {A B} (m : M A) (f : A -> M B) : M B :=
  fun s =>
    match m s with
    | (inl e, s') => (inl e, s')
    | (inr a, s') => f a s'
    end.

Definition lift {A} (r : result A) : M A := fun s => (r, s).

Definition raise {A} (c : exn_class) (m : string) : M A := lift (throw c m).

Fixpoint for_ {A} (l : list A) (body : A -> M unit) : M unit :=
  match l with
  | [] => ret tt
  | a :: l' => bind (body a) (fun _ => for_ l' body)
  end.

Definition get_next_element_id : M Z :=
  fun s =>
    let n := element_id s + 1 in
    (ok n, mkGmsh n (nodes s) (elements s) (groups s)).

Definition append_node (n : node) : M unit :=
  fun s => (ok tt, mkGmsh (element_id s) (nodes s ++ [n]) (elements s) (groups s)).

Definition append_element (el : element) : M unit :=
  fun s => (ok tt, mkGmsh (element_id s) (nodes s) (elements s ++ [el]) (groups s)).

Definition append_group (g : group) : M unit :=
  fun s => (ok tt, mkGmsh (element_id s) (nodes s) (elements s) (groups s ++ [g])).

End Gmsh.

Arguments GmshFile : clear implicits.
Arguments M : clear implicits.
Arguments node : clear implicits.

Declare Scope gmsh_scope.
Delimit Scope gmsh_scope with gmsh.
Notation "x <- m ;; k" := (bind m (fun x => k))
  (at level 61, m at next level, right associativity) : gmsh_scope.
Notation "m ;; k" := (bind m (fun _ => k))
  (at level 61, right associativity) : gmsh_scope.
Notation "x <~ r ;; k" := (rbind r (fun x => k))
  (at level 61, r at next level, right associativity) : gmsh_scope.
Open Scope gmsh_scope.

(** [map(f, l)] for an [f] that may raise: stops at the first exception. *)
Fixpoint map_result {A B} (f : A -> result B) (l : list A) : result (list B) :=
  match l with
  | [] => ok []
  | a :: l' =>
      b <~ f a ;;
      bs <~ map_result f l' ;;
      ok (b :: bs)
  end.

Section Assembler.

Context {coord : Type}.

Definition shifts : list (Z * Z * Z) :=
  [ (0, -1, -1);
    (0,  0, -1);
    (0,  0,  0);
    (0, -1,  0);
    (1, -1, -1);
    (1,  0, -1);
    (1,  0,  0);
    (1, -1,  0) ].

Definition _consume_block (f : P3DfmtFile coord) (blkn : Z) : M coord unit :=
  blk <- lift (py_getitem "list" (coords f) blkn) ;;
  let '(idim, jdim, kdim) := shape blk in
  (* Filling nodes list *)
  for_ (xrange 0 idim) (fun i =>
    for_ (xrange 0 jdim) (fun j =>
      for_ (xrange 0 kdim) (fun k =>
        node_id <- lift (_p3d_node_id f blkn i j k) ;;
        append_node (node_id, xs blk i j k, ys blk i j k, zs blk i j k)))) ;;
  (* Generating 3D elements *)
  for_ (xrange 1 jdim) (fun j =>
    for_ (xrange 1 kdim) (fun k =>
      el_id <- get_next_element_id ;;
      ns <- lift (map_result
                    (fun s => let '(s0, s1, s2) := s in
                              _p3d_node_id f blkn s0 (j + s1) (k + s2))
                    shifts) ;;
      append_element ([el_id; 5; 2; 1; -1] ++ ns))).

(** [max(self.__groups, key=lambda n: n[1])]: the first group of largest
    id; [max] of an empty list raises. *)
Definition max_group (gs : list group) : result group :=
  match gs with
  | [] => throw ValueError "max() arg is an empty sequence"
  | g :: gs' =>
      ok (fold_left (fun best g' =>
                       if group_id best <? group_id g' then g' else best)
                    gs' g)
  end.

Definition _next_group_id : M coord Z :=
  fun s => (g <~ max_group (groups s) ;; ok (group_id g + 1), s).

(** The body shared by the six branches of [_gen_boundary]: one
    quadrilateral on the four given grid points. *)
Definition emit_quad (f : P3DfmtFile coord) (blkn gid : Z) (p1 p2 p3 p4 : Z * Z * Z)
  : M coord unit :=
  let id_of (p : Z * Z * Z) := let '(i, j, k) := p in _p3d_node_id f blkn i j k in
  el_id <- get_next_element_id ;;
  n1 <- lift (id_of p1) ;;
  n2 <- lift (id_of p2) ;;
  n3 <- lift (id_of p3) ;;
  n4 <- lift (id_of p4) ;;
  append_element [el_id; 3; 2; gid; -1; n1; n2; n3; n4].

Definition unknown_face : exn := Raise ValueError "Unknown block face identifier.".

Definition _gen_boundary (p3df : P3DfmtFile coord) (b : bdry) : M coord unit :=
  gid <- _next_group_id ;;
  let nb := (2, gid, ("b" ++ str_of_int gid ++ "-" ++ label b)%string) in
  append_group nb ;;
  b1 <- lift (bdry_item b 1) ;;
  let blkn := b1 - 1 in
  blk <- lift (py_getitem "list" (coords p3df) blkn) ;;
  let '(di, dj, dk) := shape blk in
  let imax := di - 1 in
  let jmax := dj - 1 in
  let kmax := dk - 1 in
  se <- lift (unpack4 b) ;;
  let '(s1, e1, s2, e2) := se in
  face <- lift (bdry_item b 2) ;;
  if face =? 1 then
    for_ (xrange (s2 - 1) (e2 - 1)) (fun j =>
      for_ (xrange (s1 - 1) (e1 - 1)) (fun i =>
        emit_quad p3df blkn gid
          (i, j, 0) (i + 1, j, 0) (i + 1, j + 1, 0) (i, j + 1, 0)))
  else if face =? 2 then
    for_ (xrange (s2 - 1) (e2 - 1)) (fun j =>
      for_ (xrange (s1 - 1) (e1 - 1)) (fun i =>
        emit_quad p3df blkn gid
          (i, j, kmax) (i + 1, j, kmax) (i + 1, j + 1, kmax) (i, j + 1, kmax)))
  else if face =? 3 then
    for_ (xrange (s2 - 1) (e2 - 1)) (fun k =>
      for_ (xrange (s1 - 1) (e1 - 1)) (fun j =>
        emit_quad p3df blkn gid
          (0, j, k) (0, j + 1, k) (0, j + 1, k + 1) (0, j, k + 1)))
  else if face =? 4 then
    for_ (xrange (s2 - 1) (e2 - 1)) (fun k =>
      for_ (xrange (s1 - 1) (e1 - 1)) (fun j =>
        emit_quad p3df blkn gid
          (imax, j, k) (imax, j + 1, k) (imax, j + 1, k + 1) (imax, j, k + 1)))
  else if face =? 5 then
    for_ (xrange (s2 - 1) (e2 - 1)) (fun i =>
      for_ (xrange (s1 - 1) (e1 - 1)) (fun k =>
        emit_quad p3df blkn gid
          (i, 0, k) (i + 1, 0, k) (i + 1, 0, k + 1) (i, 0, k + 1)))
  else if face =? 6 then
    for_ (xrange (s2 - 1) (e2 - 1)) (fun i =>
      for_ (xrange (s1 - 1) (e1 - 1)) (fun k =>
        emit_quad p3df blkn gid
          (i, jmax, k) (i + 1, jmax, k) (i + 1, jmax, k + 1) (i, jmax, k + 1)))
  else
    lift (inl unknown_face).

(** [consume(p3dfmt_file, mapfile)]; [mapfile] defaults to [None], which has
    no [boundaries]. *)
Definition consume (p3dfmt_file : P3DfmtFile coord) (mapfile : option (list bdry))
  : M coord unit :=
  append_group (3, 1, "mesh"%string) ;;
  for_ (xrange 0 (nblocks p3dfmt_file)) (fun blkn =>
    _consume_block p3dfmt_file blkn) ;;
  match mapfile with
  | None => raise AttributeError "'NoneType' object has no attribute 'boundaries'"
  | Some boundaries => for_ boundaries (fun b => _gen_boundary p3dfmt_file b)
  end.

End Assembler.

(** ** Strings as the reader of the neutral map file uses them *)

Open Scope string_scope.

Definition newline : ascii := ascii_of_nat 10.
Definition backslash : ascii := ascii_of_nat 92.

(** The characters [str.split()] and [int()] treat as blanks. *)
Definition is_space (c : ascii) : bool :=
  let n := nat_of_ascii c in
  ((n =? 32) || ((9 <=? n) && (n <=? 13)))%nat.

(** [s[a:b]]: negative bounds count from the end, and bounds are clipped. *)
Definition py_slice (s : string) (a b : Z) : string :=
  let len := Z.of_nat (String.length s) in
  let clip x := (if x <? 0 then Z.max (x + len) 0 else Z.min x len)%Z in
  substring (Z.to_nat (clip a)) (Z.to_nat (clip b - clip a)) s.

Definition endswith (s suffix : string) : bool :=
  let n := String.length s in
  let m := String.length suffix in
  ((m <=? n)%nat && (substring (n - m) m s =? suffix))%bool.

(** [s.split()]: the maximal runs of non-blank characters; [cur] is the run
    being read. *)
Fixpoint split_from (s cur : string) : list string :=
  match s with
  | EmptyString => if cur =? "" then [] else [cur]
  | String c s' =>
      if is_space c
      then (if cur =? "" then split_from s' "" else cur :: split_from s' "")
      else split_from s' (cur ++ String c "")
  end.

Definition split (s : string) : list string := split_from s "".

(** The lines of a text, each with its line end, as reading a file yields. *)
Fixpoint lines_from (s cur : string) : list string :=
  match s with
  | EmptyString => if cur =? "" then [] else [cur]
  | String c s' =>
      if Ascii.eqb c newline
      then (cur ++ String c "") :: lines_from s' ""
      else lines_from s' (cur ++ String c "")
  end.

Definition readlines (text : string) : list string := lines_from text "".

Fixpoint lstrip (s : string) : string :=
  match s with
  | EmptyString => ""
  | String c s' => if is_space c then lstrip s' else s
  end.

Fixpoint rstrip (s : string) : string :=
  match s with
  | EmptyString => ""
  | String c s' =>
      match rstrip s' with
      | EmptyString => if is_space c then "" else String c ""
      | r => String c r
      end
  end.

Definition digit_of (c : ascii) : option Z :=
  let n := nat_of_ascii c in
  if ((48 <=? n) && (n <=? 57))%nat then Some (Z.of_nat (n - 48)) else None.

Fixpoint digits_value (s : string) (acc : Z) : option Z :=
  match s with
  | EmptyString => Some acc
  | String c s' =>
      match digit_of c with
      | Some d => digits_value s' (10 * acc + d)%Z
      | None => None
      end
  end.

(** [int(s)] in base 10: blanks around, an optional sign, blanks again (the
    interpreter the script is written for skips them), then digits and
    nothing else.  Anything else is a [ValueError]. *)
Definition py_int (s : string) : result Z :=
  let t := rstrip (lstrip s) in
  let '(neg, body) :=
    match t with
    | String c r =>
        if Ascii.eqb c "-" then (true, lstrip r)
        else if Ascii.eqb c "+" then (false, lstrip r)
        else (false, t)
    | EmptyString => (false, t)
    end in
  match body, digits_value body 0 with
  | String _ _, Some v => ok (if neg then - v else v)%Z
  | _, _ => throw ValueError "invalid literal for int() with base 10"
  end.

(** ** The reader: [NeutralMapFile.__init__] *)

Definition connectivity_marker : string := "one-to-one".

(** The list [b] of the tokens of a record line. *)
Definition line_tokens (l : string) : list string :=
  if endswith l (String backslash "") then split (py_slice l 0 (-2)) else split l.

(** The body of the loop over the record lines: the record a line adds to
    [boundaries], if any. *)
Definition boundary_of_line (l : string) : result (option bdry) :=
  match line_tokens l with
  | [] => ok None
  | b0 :: rest =>
      let b0 := py_slice b0 1 (-1) in
      if b0 =? connectivity_marker then ok None
      else
        ns <~ map_result py_int (firstn 6 rest) ;;
        ok (Some (mkBdry b0 ns))
  end.

(** [for l in fp: ...], with [boundaries] what was appended so far. *)
Fixpoint read_boundaries (fp : list string) (boundaries : list bdry)
  : result (list bdry) :=
  match fp with
  | [] => ok boundaries
  | l :: fp' =>
      r <~ boundary_of_line l ;;
      read_boundaries fp'
        (match r with Some b => (boundaries ++ [b])%list | None => boundaries end)
  end.

(** [fp.readline()]: the next line, the empty string at the end of file. *)
Definition readline (fp : list string) : string * list string :=
  (hd "" fp, tl fp).

(** The part of [NeutralMapFile.__init__] before the records: of the lines
    of the file it leaves those of the record section. *)
Definition skip_header (fp : list string) : result (list string) :=
  (* Skip initial comments *)
  let fp := skipn 4 fp in
  (* Blocks *)
  let '(l, fp) := readline fp in
  let l := py_slice l 0 (-2) in
  nblocks <~ py_int l ;;
  let fp := snd (readline fp) in
  let fp := skipn (Z.to_nat nblocks) fp in
  let fp := snd (readline fp) in
  (* Middle comments *)
  let fp := skipn 3 fp in
  ok fp.

(** [NeutralMapFile(filename)], where [file] is the text of the file named,
    [None] when no name is given.  The result is [boundaries]. *)
Definition NeutralMapFile (file : option string) : result (list bdry) :=
  match file with
  | None => ok []
  | Some text =>
      fp <~ skip_header (readlines text) ;;
      (* Boundaries *)
      read_boundaries fp []
  end.

(** [main] for one grid: load the map file, then [consume] into a new
    [GmshFile]. *)
Definition convert {coord} (p3d : P3DfmtFile coord) (mapfile : string)
  : result unit * GmshFile coord :=
  match NeutralMapFile (Some mapfile) with
  | inl e => (inl e, GmshFile_new)
  | inr nmf => consume p3d (Some nmf) GmshFile_new
  end.

Close Scope string_scope.

(** ** The dimension accessors of [P3DfmtFile] *)

Section Accessors.

Context {coord : Type}.

(** [self.__coords[nblk - 1]], where [self.__coords] is the list of blocks
    or, on an object constructed without coordinates, [None]. *)
Definition block_of (self_coords : option (list (Block coord))) (nblk : Z)
  : result (Block coord) :=
  match self_coords with
  | None => throw TypeError "'NoneType' object has no attribute '__getitem__'"
  | Some l => py_getitem "list" l (nblk - 1)
  end.

(** [idims(nblk)], [jdims(nblk)], [kdims(nblk)]: the extents of block
    [nblk], counted from 1; each reads [self.__coords[nblk - 1][0].shape]. *)
Definition idims (self_coords : option (list (Block coord))) (nblk : Z) : result Z :=
  blk <~ block_of self_coords nblk ;;
  let '(di, _, _) := shape blk in ok di.

Definition jdims (self_coords : option (list (Block coord))) (nblk : Z) : result Z :=
  blk <~ block_of self_coords nblk ;;
  let '(_, dj, _) := shape blk in ok dj.

Definition kdims (self_coords : option (list (Block coord))) (nblk : Z) : result Z :=
  blk <~ block_of self_coords nblk ;;
  let '(_, _, dk) := shape blk in ok dk.

End Accessors.

(** ** Vocabulary of the properties *)

Section Vocabulary.

Context {coord : Type}.

(** The global id of grid point [(i, j, k)] of block [n] in closed form: one
    more than the sizes of the blocks before, plus the row-major position
    with [k] fastest. *)
Definition global_id (f : P3DfmtFile coord) (n : Z) (p : Z * Z * Z) : Z :=
  let '(i, j, k) := p in
  match nth_error (coords f) (Z.to_nat n) with
  | Some blk =>
      let '(_, dj, dk) := shape blk in
      1 + offset f n + k + dk * j + dk * dj * i
  | None => 0
  end.

(** The grid points of a block, in the order the node loop visits them. *)
Definition block_points (blk : Block coord) : list (Z * Z * Z) :=
  let '(di, dj, dk) := shape blk in
  flat_map (fun i =>
    flat_map (fun j =>
      map (fun k => (i, j, k)) (xrange 0 dk)) (xrange 0 dj)) (xrange 0 di).

(** The indexer over a list of grid points of block [n]. *)
Definition node_ids (f : P3DfmtFile coord) (n : Z) (ps : list (Z * Z * Z))
  : result (list Z) :=
  map_result (fun p => let '(i, j, k) := p in _p3d_node_id f n i j k) ps.

(** Elements of the given bodies [[type, ntags, group, -1, n1, ...]],
    numbered from [next] on. *)
Fixpoint with_ids (next : Z) (bodies : list (list Z)) : list element :=
  match bodies with
  | [] => []
  | b :: bs => (next :: b) :: with_ids (next + 1) bs
  end.

(** The state after appending nodes, numbered elements and groups. *)
Definition extend (ns : list (node coord)) (bodies : list (list Z))
  (gs : list group) (s : GmshFile coord) : GmshFile coord :=
  mkGmsh (element_id s + Z.of_nat (List.length bodies))
         (nodes s ++ ns)
         (elements s ++ with_ids (element_id s + 1) bodies)
         (groups s ++ gs).

(** The corners of the hexahedron of cell [(j, k)], in element order. *)
Definition hex_corners (j k : Z) : list (Z * Z * Z) :=
  [ (0, j - 1, k - 1); (0, j, k - 1); (0, j, k); (0, j - 1, k);
    (1, j - 1, k - 1); (1, j, k - 1); (1, j, k); (1, j - 1, k) ].

(** The cells [(j, k)] of the [(j, k)] plane of a block: [j] in [[1, J)],
    [k] in [[1, K)]. *)
Definition hex_cells (blk : Block coord) : list (Z * Z) :=
  let '(_, dj, dk) := shape blk in
  flat_map (fun j => map (fun k => (j, k)) (xrange 1 dk)) (xrange 1 dj).

Definition hex_body (f : P3DfmtFile coord) (n : Z) (c : Z * Z) : list Z :=
  let '(j, k) := c in
  [5; 2; 1; -1] ++ map (global_id f n) (hex_corners j k).

Definition block_nodes (f : P3DfmtFile coord) (n : Z) (blk : Block coord)
  : list (node coord) :=
  map (fun p => let '(i, j, k) := p in
                (global_id f n p, xs blk i j k, ys blk i j k, zs blk i j k))
      (block_points blk).

(** The id and the kind of an element; 5 is a hexahedron, 3 a
    quadrilateral. *)
Definition el_id (el : element) : Z := hd 0 el.
Definition el_type (el : element) : Z := nth 1 el 0.
Definition is_hexahedron (el : element) : Prop := el_type el = 5.
Definition is_quadrilateral (el : element) : Prop := el_type el = 3.

(** Ids in list order are 1, 2, ..., without a gap. *)
Definition ids_dense (els : list element) : Prop :=
  map el_id els = xrange 1 (1 + Z.of_nat (List.length els)).

Definition group_ids_dense (gs : list group) : Prop :=
  map group_id gs = xrange 1 (1 + Z.of_nat (List.length gs)).

(** Volume elements first, boundary elements after them. *)
Definition volume_then_boundary (els : list element) : Prop :=
  exists vol bnd,
    els = vol ++ bnd /\ Forall is_hexahedron vol /\ Forall is_quadrilateral bnd.

(** The volume group first, surface groups after it, ids 1, 2, ... *)
Definition mesh_group_first (gs : list group) : Prop :=
  exists surf,
    gs = (3, 1, "mesh"%string) :: surf /\
    Forall (fun g => group_dim g = 2) surf /\
    group_ids_dense gs.

(** The groups after [n] records: the volume group and [n] surface groups. *)
Definition groups_after (n : nat) (gs : list group) : Prop :=
  mesh_group_first gs /\ List.length gs = S n.

Definition only_mesh_group (gs : list group) : Prop :=
  gs = [(3, 1, "mesh"%string)].

(** The state between two steps of the assembler: dense element ids, the
    counter at the last id, and what [K] and [G] ask of the elements and
    the groups.  [pending] holds between taking an id and appending its
    element; [aborted] is what an exception leaves. *)
Definition assembling (K : list element -> Prop) (G : list group -> Prop)
  (s : GmshFile coord) : Prop :=
  ids_dense (elements s) /\
  element_id s = Z.of_nat (List.length (elements s)) /\
  K (elements s) /\ G (groups s).

Definition pending (K : list element -> Prop) (G : list group -> Prop)
  (id : Z) (s : GmshFile coord) : Prop :=
  ids_dense (elements s) /\
  (element_id s = id /\ id = Z.of_nat (List.length (elements s)) + 1) /\
  K (elements s) /\ G (groups s).

Definition aborted (K : list element -> Prop) (G : list group -> Prop)
  (_ : exn) (s : GmshFile coord) : Prop :=
  ids_dense (elements s) /\ K (elements s) /\ G (groups s).

(** The exceptions of the indexer are of one class. *)
Definition raises_index_error (e : exn) (_ : GmshFile coord) : Prop :=
  exn_cls e = IndexError.

(** The faces of a block.  A row names the axis a face holds fixed, whether
    at its largest index rather than at 0, and the two tangential axes in
    the order in which the corners of a cell are wound. *)
Inductive axis := AxisI | AxisJ | AxisK.

Record face_row := mkRow {
  fixed_axis : axis;
  fixed_at_max : bool;
  tangential : axis * axis
}.

Definition face_table (face : Z) : option face_row :=
  if face =? 1 then Some (mkRow AxisK false (AxisI, AxisJ))
  else if face =? 2 then Some (mkRow AxisK true (AxisI, AxisJ))
  else if face =? 3 then Some (mkRow AxisI false (AxisJ, AxisK))
  else if face =? 4 then Some (mkRow AxisI true (AxisJ, AxisK))
  else if face =? 5 then Some (mkRow AxisJ false (AxisI, AxisK))
  else if face =? 6 then Some (mkRow AxisJ true (AxisI, AxisK))
  else None.

Definition axis_eqb (x y : axis) : bool :=
  match x, y with
  | AxisI, AxisI | AxisJ, AxisJ | AxisK, AxisK => true
  | _, _ => false
  end.

Definition extent (sh : Z * Z * Z) (ax : axis) : Z :=
  let '(di, dj, dk) := sh in
  match ax with AxisI => di | AxisJ => dj | AxisK => dk end.

(** The grid point of a face at [a] along its first tangential axis and [b]
    along its second. *)
Definition face_point (row : face_row) (sh : Z * Z * Z) (a b : Z) : Z * Z * Z :=
  let fixed := if fixed_at_max row then extent sh (fixed_axis row) - 1 else 0 in
  let along ax :=
    if axis_eqb ax (fst (tangential row)) then a
    else if axis_eqb ax (snd (tangential row)) then b
    else fixed in
  (along AxisI, along AxisJ, along AxisK).

(** The corners [(a,b), (a+1,b), (a+1,b+1), (a,b+1)] of cell [(a, b)]. *)
Definition quad_corners (row : face_row) (sh : Z * Z * Z) (c : Z * Z)
  : list (Z * Z * Z) :=
  let '(a, b) := c in
  [ face_point row sh a b; face_point row sh (a + 1) b;
    face_point row sh (a + 1) (b + 1); face_point row sh a (b + 1) ].

Definition quad_body (f : P3DfmtFile coord) (n gid : Z) (row : face_row)
  (sh : Z * Z * Z) (c : Z * Z) : list Z :=
  [3; 2; gid; -1] ++ map (global_id f n) (quad_corners row sh c).

(** The cells [(a, b)] a record sweeps, in emission order.  The second
    range runs in the outer loop and the first in the inner one; on faces 1
    to 4 the first range runs along the first tangential axis and the second
    along the second, on faces 5 and 6 the first range runs along the second
    tangential axis ([k]) and the second along the first ([i]). *)
Definition swept_cells (face s1 e1 s2 e2 : Z) : list (Z * Z) :=
  flat_map (fun v2 =>
    map (fun v1 => if face <=? 4 then (v1, v2) else (v2, v1))
        (xrange (s1 - 1) (e1 - 1)))
    (xrange (s2 - 1) (e2 - 1)).

(** The cells when, as the face table is worded, the first range runs along
    the first tangential axis listed and the second along the second, for
    every face. *)
Definition tabulated_cells (s1 e1 s2 e2 : Z) : list (Z * Z) :=
  flat_map (fun a => map (fun b => (a, b)) (xrange (s2 - 1) (e2 - 1)))
           (xrange (s1 - 1) (e1 - 1)).

(** The corner ids of the quadrilaterals [_gen_boundary] appends for a
    record, and those of the cells of [tabulated_cells]. *)
Definition emitted_quads (f : P3DfmtFile coord) (b : bdry) (s : GmshFile coord)
  : list (list Z) :=
  map (skipn 5)
      (skipn (List.length (elements s)) (elements (snd (_gen_boundary f b s)))).

Definition tabulated_quads (f : P3DfmtFile coord) (b : bdry) : list (list Z) :=
  match ints b with
  | [blkno; face; s1; e1; s2; e2] =>
      match nth_error (coords f) (Z.to_nat (blkno - 1)), face_table face with
      | Some blk, Some row =>
          map (fun c => map (global_id f (blkno - 1))
                            (quad_corners row (shape blk) c))
              (tabulated_cells s1 e1 s2 e2)
      | _, _ => []
      end
  | _ => []
  end.

(** The group [_gen_boundary] allocates in state [s] for a record. *)
Definition next_group (s : GmshFile coord) (b : bdry) : result group :=
  g <~ max_group (groups s) ;;
  ok (2, group_id g + 1,
      ("b" ++ str_of_int (group_id g + 1) ++ "-" ++ label b)%string).

(** Outcomes of a method: [Q] on return, [E] on an exception, from a state
    satisfying [P]. *)
Definition hoare {A} (P : GmshFile coord -> Prop) (m : M coord A)
  (Q : A -> GmshFile coord -> Prop) (E : exn -> GmshFile coord -> Prop) : Prop :=
  forall s, P s ->
    match m s with
    | (inr a, s') => Q a s'
    | (inl e, s') => E e s'
    end.

(** What a block and a record contribute to a conversion that returns:
    the nodes and hexahedra of block [blkn], the quadrilaterals and the
    group of a record whose group id is [gid]. *)
Definition nodes_of_block (f : P3DfmtFile coord) (blkn : Z) : list (node coord) :=
  match nth_error (coords f) (Z.to_nat blkn) with
  | Some blk => block_nodes f blkn blk
  | None => []
  end.

Definition hexahedra_of_block (f : P3DfmtFile coord) (blkn : Z) : list (list Z) :=
  match nth_error (coords f) (Z.to_nat blkn) with
  | Some blk => map (hex_body f blkn) (hex_cells blk)
  | None => []
  end.

Definition quads_of_record (f : P3DfmtFile coord) (b : bdry) (gid : Z)
  : list (list Z) :=
  match ints b with
  | [blkno; face; s1; e1; s2; e2] =>
      match nth_error (coords f) (Z.to_nat (blkno - 1)), face_table face with
      | Some blk, Some row =>
          map (quad_body f (blkno - 1) gid row (shape blk))
              (swept_cells face s1 e1 s2 e2)
      | _, _ => []
      end
  | _ => []
  end.

Definition group_of_record (b : bdry) (gid : Z) : group :=
  (2, gid, ("b" ++ str_of_int gid ++ "-" ++ label b)%string).

Fixpoint quads_of_records (f : P3DfmtFile coord) (bs : list bdry) (gid : Z)
  : list (list Z) :=
  match bs with
  | [] => []
  | b :: bs' => quads_of_record f b gid ++ quads_of_records f bs' (gid + 1)
  end.

Fixpoint groups_of_records (bs : list bdry) (gid : Z) : list group :=
  match bs with
  | [] => []
  | b :: bs' => group_of_record b gid :: groups_of_records bs' (gid + 1)
  end.

(** A record as the data model has it: six integers, the block number of
    an existing block, a face id of the table. *)
Definition record_ok (f : P3DfmtFile coord) (b : bdry) : Prop :=
  exists blkno face s1 e1 s2 e2 blk,
    ints b = [blkno; face; s1; e1; s2; e2] /\
    1 <= blkno /\
    nth_error (coords f) (Z.to_nat (blkno - 1)) = Some blk /\
    1 <= face <= 6.

(** The label of the record of a line: its first token without its first
    and last character. *)
Definition line_label (l : string) : option string :=
  match line_tokens l with
  | [] => None
  | b0 :: _ => Some (py_slice b0 1 (-1))
  end.

Definition records_of (r : option bdry) : list bdry :=
  match r with Some b => [b] | None => [] end.

(** Joining continued lines, as the description of the file format has it:
    a line that ends with a backslash is continued by the line after it. *)
Definition continued (l : string) : bool :=
  endswith l (String backslash (String newline ""))
  || endswith l (String backslash "").

Definition without_continuation (l : string) : string :=
  if endswith l (String backslash (String newline "")) then py_slice l 0 (-2)
  else py_slice l 0 (-1).

Fixpoint join_continuations (fp : list string) : list string :=
  match fp with
  | [] => []
  | l :: fp' =>
      match join_continuations fp' with
      | next :: rest =>
          if continued l then (without_continuation l ++ next)%string :: rest
          else l :: next :: rest
      | [] => [l]
      end
  end.

(** The records the reader yields are those of the joined lines. *)
Definition joined_before_parsing (fp : list string) : Prop :=
  read_boundaries fp [] = read_boundaries (join_continuations fp) [].




(** A line of blanks only. *)
Fixpoint all_blank (s : string) : bool :=
  match s with
  | EmptyString => true
  | String c s' => is_space c && all_blank s'
  end.

(** The group an element is tagged with, and what a mesh asks of an
    element: a hexahedron of 13 fields in a group of dimension 3, or a
    quadrilateral of 9 fields in a group of dimension 2, the group being one
    of the mesh. *)
Definition el_group (el : element) : Z := nth 3 el 0.

Definition element_tagged (gs : list group) (el : element) : Prop :=
  exists g,
    In g gs /\ group_id g = el_group el /\
    ((group_dim g = 3 /\ el_type el = 5 /\ List.length el = 13%nat) \/
     (group_dim g = 2 /\ el_type el = 3 /\ List.length el = 9%nat)).

(** The id of a node [(id, x, y, z)]. *)
Definition node_id (n : node coord) : Z := fst (fst (fst n)).

(** Nodes and groups are as given. *)
Definition nodes_groups_are (ns : list (node coord)) (gs : list group)
  (s : GmshFile coord) : Prop :=
  nodes s = ns /\ groups s = gs.

(** The two loops over the ranges of a record raise no [OverflowError]. *)
Definition ranges_fit_long (s1 e1 s2 e2 : Z) : Prop :=
  fits_xrange (s1 - 1) (e1 - 1) /\ fits_xrange (s2 - 1) (e2 - 1).

Definition record_ranges_fit (b : bdry) : Prop :=
  match skipn 2 (ints b) with
  | [s1; e1; s2; e2] => ranges_fit_long s1 e1 s2 e2
  | _ => False
  end.

End Vocabulary.

(** ** Sample inputs *)

(** A block of the given extents whose coordinates are the grid indices. *)
Definition box (sh : Z * Z * Z) : Block Z :=
  mkBlock sh (fun i _ _ => i) (fun _ j _ => j) (fun _ _ k => k).

(** Two blocks, of extents (2, 3, 2) and (3, 2, 3). *)
Definition two_blocks : P3DfmtFile Z := mkP3D 2 [box (2, 3, 2); box (3, 2, 3)].

(** One block of extents (3, 2, 3). *)
Definition one_block : P3DfmtFile Z := mkP3D 1 [box (3, 2, 3)].

(** A mesh with the volume group only. *)
Definition mesh_only : GmshFile Z := mkGmsh 0 [] [] [(3, 1, "mesh"%string)].

(** Records: face 5 of block 1 with ranges (1, 3) and (1, 2); face 1 of
    block 1; a face id outside the table. *)
Definition wall5 : bdry := mkBdry "wall" [1; 5; 1; 3; 1; 2].
Definition wall1 : bdry := mkBdry "inlet" [1; 1; 1; 2; 1; 2].
Definition wall7 : bdry := mkBdry "odd" [1; 7; 1; 2; 1; 2].

Definition with_newline (l : string) : string := (l ++ String newline "")%string.

(** A neutral map file for one block, with a connectivity record between
    two boundary records, and the same file without that record. *)
Definition header_lines : list string :=
  map with_newline
    [ "# neutral map file"; "# ===="; "# Block# IDIM JDIM KDIM"; "# ----";
      "     1 "; ""; "     1     3     2     3"; "";
      "# ===="; "# Type B1 F1 S1 E1 S2 E2 B2 F2 S1 E1 S2 E2 Swap"; "# ----" ]%string.

Definition wall_line : string := with_newline "'wall' 1 5 1 3 1 2".
Definition link_line : string :=
  with_newline "'one-to-one' 1 3 1 2 1 3 1 4 1 2 1 3 false".
Definition inlet_line : string := with_newline "'inlet' 1 1 1 2 1 2".

Definition map_text : string :=
  String.concat "" (header_lines ++ [wall_line; link_line; inlet_line]).
Definition map_text_unlinked : string :=
  String.concat "" (header_lines ++ [wall_line; inlet_line]).

(** A record written on two lines, the first ending with a backslash. *)
Definition continued_lines : list string :=
  [ with_newline ("'wall' 1 1 1 " ++ String backslash "")%string;
    with_newline "2 1 2" ].


(** Records with three integers only, and with an empty first range. *)
Definition short_record : bdry := mkBdry "short" [1; 1; 1].

(** A line of blanks. *)
Definition blank_line : string := with_newline "   ".

(** A record line with three tokens after the seventh, one of them no
    integer, a record line with two integers only, and a map file with
    these two lines for records. *)
Definition long_line : string := with_newline "'far' 1 2 1 3 1 2 2 false 9".
Definition short_line : string := with_newline "'near' 1 2".
Definition map_text_ragged : string :=
  String.concat "" (header_lines ++ [long_line; short_line]).

(** * Properties *)

(** ** Ranges and indexing *)

Lemma xrange_nil a b : b <= a -> xrange a b = [].
Proof.
  intros H. unfold xrange.
  replace (Z.to_nat (b - a)) with 0%nat by lia. reflexivity.
Qed.

Lemma xrange_cons a b : a < b -> xrange a b = a :: xrange (a + 1) b.
Proof.
  intros H. unfold xrange.
  replace (Z.to_nat (b - a)) with (S (Z.to_nat (b - (a + 1)))) by lia.
  simpl. f_equal; [lia|].
  rewrite <- seq_shift, map_map.
  apply map_ext. intros n. lia.
Qed.

Lemma xrange_length a b : List.length (xrange a b) = Z.to_nat (b - a).
Proof. unfold xrange. now rewrite length_map, length_seq. Qed.

Lemma xrange_app a m b : a <= m <= b -> xrange a b = xrange a m ++ xrange m b.
Proof.
  intros H.
  remember (Z.to_nat (m - a)) as n eqn:Hn.
  revert a H Hn. induction n as [|n IH]; intros a H Hn.
  - assert (m = a) by lia. subst m. now rewrite (xrange_nil (a:=a) (b:=a)) by lia.
  - rewrite (xrange_cons (a:=a) (b:=b)) by lia.
    rewrite (xrange_cons (a:=a) (b:=m)) by lia.
    simpl. f_equal. apply IH; lia.
Qed.

Lemma xrange_snoc a b : a <= b -> xrange a (b + 1) = xrange a b ++ [b].
Proof.
  intros H. rewrite (xrange_app (a:=a) (m:=b) (b:=b+1)) by lia.
  f_equal. rewrite xrange_cons by lia. now rewrite xrange_nil by lia.
Qed.

Lemma in_xrange a b x : In x (xrange a b) <-> a <= x < b.
Proof.
  unfold xrange. rewrite in_map_iff. split.
  - intros (n & <- & Hn). apply in_seq in Hn. lia.
  - intros H. exists (Z.to_nat (x - a)). split; [lia|]. apply in_seq. lia.
Qed.

Lemma xrange_shift c a b : map (fun k => c + k) (xrange a b) = xrange (c + a) (c + b).
Proof.
  unfold xrange. rewrite map_map.
  replace (c + b - (c + a)) with (b - a) by lia.
  apply map_ext. intros n. lia.
Qed.

Lemma py_getitem_nth {A} kind (l : list A) n :
  0 <= n -> py_getitem kind l n =
            match nth_error l (Z.to_nat n) with
            | Some a => ok a
            | None => throw IndexError (kind ++ " index out of range")%string
            end.
Proof.
  intros H. unfold py_getitem.
  destruct (Z.ltb_spec n 0); [lia|].
  destruct (Z.leb_spec 0 n); [reflexivity|lia].
Qed.

(** ** The global node indexer *)

Section Indexer.

Context {coord : Type}.
Implicit Types (f : P3DfmtFile coord) (blk : Block coord).

Lemma skipn_nth_error {A} (l : list A) n x :
  nth_error l n = Some x -> skipn n l = x :: skipn (S n) l.
Proof.
  revert l; induction n as [|n IH]; intros [|y l] H; simpl in *; try discriminate.
  - now inversion H.
  - now apply IH.
Qed.

Lemma sum_sizes_run f (m : nat) : forall (a : nat) basen,
  (a + m <= List.length (coords f))%nat ->
  sum_sizes f (xrange (Z.of_nat a) (Z.of_nat a + Z.of_nat m)) basen =
  ok (basen + fold_right Z.add 0 (map block_size (firstn m (skipn a (coords f))))).
Proof.
  induction m as [|m IH]; intros a basen Hlen.
  - rewrite xrange_nil by lia. simpl. f_equal. lia.
  - rewrite xrange_cons by lia.
    replace (Z.of_nat a + Z.of_nat (S m)) with (Z.of_nat (S a) + Z.of_nat m) by lia.
    replace (Z.of_nat a + 1) with (Z.of_nat (S a)) by lia.
    cbn [sum_sizes].
    rewrite py_getitem_nth by lia. rewrite Nat2Z.id.
    destruct (nth_error (coords f) a) as [blk|] eqn:Hnth.
    2:{ apply nth_error_None in Hnth. lia. }
    cbn [rbind ok]. rewrite (skipn_nth_error _ _ Hnth).
    cbn [firstn map fold_right]. unfold block_size at 1.
    destruct (shape blk) as [[di dj] dk].
    rewrite IH by lia. f_equal. lia.
Qed.

Lemma sum_sizes_offset f n :
  0 <= n <= Z.of_nat (List.length (coords f)) ->
  sum_sizes f (xrange 0 n) 1 = ok (1 + offset f n).
Proof.
  intros H.
  pose proof (@sum_sizes_run f (Z.to_nat n) 0%nat 1) as Hrun.
  cbn [Z.of_nat Z.add skipn] in Hrun. rewrite Z2Nat.id in Hrun by lia.
  apply Hrun. lia.
Qed.

(** The indexer on an existing block, whatever the grid point. *)
Lemma _p3d_node_id_run f n blk i j k :
  nblocks f = Z.of_nat (List.length (coords f)) ->
  0 <= n ->
  nth_error (coords f) (Z.to_nat n) = Some blk ->
  _p3d_node_id f n i j k = ok (global_id f n (i, j, k)).
Proof.
  intros Hsz Hn Hblk.
  assert (Hlt : (Z.to_nat n < List.length (coords f))%nat)
    by (apply nth_error_Some; congruence).
  unfold _p3d_node_id, global_id.
  destruct (Z.leb_spec (nblocks f) n); [lia|].
  assert (Hbase : (if 1 <? nblocks f then sum_sizes f (xrange 0 n) 1 else ok 1)
                  = ok (1 + offset f n)).
  { destruct (Z.ltb_spec 1 (nblocks f)).
    - apply sum_sizes_offset. lia.
    - assert (n = 0) by lia. subst n. reflexivity. }
  rewrite Hbase. simpl rbind.
  rewrite py_getitem_nth by lia. rewrite Hblk. simpl rbind.
  destruct (shape blk) as [[di dj] dk]. reflexivity.
Qed.

(** C1: on a block index [n < nblocks] the indexer returns
    [1 + (sum of extent_i * extent_j * extent_k over blocks 0..n-1)
     + k + extent_k * j + extent_k * extent_j * i], the extents of the local
    term being those of block [n]; this holds at every in-bounds [(i, j, k)],
    the indexer not looking at the bounds. *)
Theorem p3d_node_id_formula f n blk di dj dk i j k :
  nblocks f = Z.of_nat (List.length (coords f)) ->
  0 <= n < nblocks f ->
  nth_error (coords f) (Z.to_nat n) = Some blk ->
  shape blk = (di, dj, dk) ->
  in_bounds blk i j k ->
  _p3d_node_id f n i j k =
  ok (1 + fold_right Z.add 0 (map block_size (firstn (Z.to_nat n) (coords f)))
      + k + dk * j + dk * dj * i).
Proof.
  intros Hsz Hn Hblk Hshape _.
  rewrite (_p3d_node_id_run _ i j k Hsz (proj1 Hn) Hblk).
  unfold global_id. rewrite Hblk, Hshape. reflexivity.
Qed.

End Indexer.

(** ** Block-contiguous numbering *)

Lemma map_flat_map {A B C} (g : B -> C) (h : A -> list B) (l : list A) :
  map g (flat_map h l) = flat_map (fun x => map g (h x)) l.
Proof.
  induction l as [|a l IH]; simpl; [reflexivity|].
  now rewrite map_app, IH.
Qed.

Lemma in_flat_map_pair {A B C} (h : A -> list B) (g : A -> B -> C) l c :
  In c (flat_map (fun a => map (g a) (h a)) l) <->
  exists a b, In a l /\ In b (h a) /\ c = g a b.
Proof.
  rewrite in_flat_map. split.
  - intros (a & Ha & Hc). apply in_map_iff in Hc as (b & <- & Hb). eauto.
  - intros (a & b & Ha & Hb & ->). exists a. split; [assumption|].
    apply in_map_iff. eauto.
Qed.

(** Consecutive ranges of one width tile a range. *)
Lemma flat_xrange_tiles (n : nat) : forall a base w,
  0 <= w ->
  flat_map (fun i => xrange (base + w * i) (base + w * i + w))
           (xrange a (a + Z.of_nat n)) =
  xrange (base + w * a) (base + w * (a + Z.of_nat n)).
Proof.
  induction n as [|n IH]; intros a base w Hw.
  - rewrite xrange_nil by lia. simpl. now rewrite xrange_nil by lia.
  - rewrite xrange_cons by lia. cbn [flat_map].
    replace (a + Z.of_nat (S n)) with (a + 1 + Z.of_nat n) by lia.
    rewrite IH by assumption.
    rewrite (xrange_app (a := base + w * a) (m := base + w * a + w)
                        (b := base + w * (a + 1 + Z.of_nat n))) by nia.
    do 2 f_equal. lia.
Qed.

Lemma flat_xrange_from_zero n base w :
  0 <= n -> 0 <= w ->
  flat_map (fun i => xrange (base + w * i) (base + w * i + w)) (xrange 0 n) =
  xrange base (base + w * n).
Proof.
  intros Hn Hw.
  pose proof (@flat_xrange_tiles (Z.to_nat n) 0 base w Hw) as H.
  rewrite Z2Nat.id in H by lia.
  replace (0 + n) with n in H by lia.
  replace (base + w * 0) with base in H by lia.
  exact H.
Qed.

(** Row-major positions of an [di * dj * dk] box, [k] fastest, in loop
    order, are the integers from 0 on. *)
Lemma row_major_positions base di dj dk :
  0 <= di -> 0 <= dj -> 0 <= dk ->
  flat_map (fun i =>
    flat_map (fun j =>
      map (fun k => base + k + dk * j + dk * dj * i) (xrange 0 dk))
      (xrange 0 dj)) (xrange 0 di) =
  xrange base (base + di * dj * dk).
Proof.
  intros Hi Hj Hk.
  rewrite (flat_map_ext _
             (fun i => xrange (base + (dk * dj) * i) (base + (dk * dj) * i + dk * dj))).
  - rewrite flat_xrange_from_zero by nia. f_equal; lia.
  - intros i.
    rewrite (flat_map_ext _
               (fun j => xrange ((base + dk * dj * i) + dk * j)
                                ((base + dk * dj * i) + dk * j + dk))).
    + rewrite flat_xrange_from_zero by lia. f_equal; lia.
    + intros j.
      rewrite (map_ext _ (fun k => (base + dk * dj * i + dk * j) + k))
        by (intros; lia).
      rewrite xrange_shift. f_equal; lia.
Qed.

Lemma row_major_bounds di dj dk i j k :
  0 <= i < di -> 0 <= j < dj -> 0 <= k < dk ->
  0 <= k + dk * j + dk * dj * i < di * dj * dk.
Proof.
  intros Hi Hj Hk.
  assert (0 <= dk * j <= dk * (dj - 1)) by nia.
  assert (0 <= dk * dj) by nia.
  assert (0 <= (dk * dj) * i <= (dk * dj) * (di - 1)) by nia.
  lia.
Qed.

Lemma row_major_injective dj dk i j k i' j' k' :
  0 <= j < dj -> 0 <= k < dk -> 0 <= j' < dj -> 0 <= k' < dk ->
  k + dk * j + dk * dj * i = k' + dk * j' + dk * dj * i' ->
  i = i' /\ j = j' /\ k = k'.
Proof.
  intros Hj Hk Hj' Hk' H.
  destruct (Z.div_mod_unique dk (j + dj * i) (j' + dj * i') k k') as [Hq Hr];
    [lia | lia | lia |].
  destruct (Z.div_mod_unique dj i i' j j') as [Hq' Hr']; [lia | lia | lia |].
  auto.
Qed.

Lemma xrange_NoDup a b : NoDup (xrange a b).
Proof.
  remember (Z.to_nat (b - a)) as n eqn:Hn.
  revert a Hn. induction n as [|n IH]; intros a Hn.
  - rewrite xrange_nil by lia. constructor.
  - rewrite xrange_cons by lia. constructor.
    + rewrite in_xrange. lia.
    + apply IH. lia.
Qed.

Lemma map_result_ok {A B} (f : A -> result B) (g : A -> B) (l : list A) :
  (forall a, In a l -> f a = ok (g a)) -> map_result f l = ok (map g l).
Proof.
  induction l as [|a l IH]; intros H; simpl; [reflexivity|].
  rewrite (H a) by now left. cbn [rbind ok].
  rewrite IH by (intros; apply H; now right). reflexivity.
Qed.

Lemma sum_firstn_mono (l : list Z) : forall n m,
  (n <= m)%nat -> Forall (fun x => 0 <= x) l ->
  fold_right Z.add 0 (firstn n l) <= fold_right Z.add 0 (firstn m l).
Proof.
  induction l as [|x l IH]; intros n m Hnm Hl.
  - rewrite !firstn_nil. lia.
  - inversion Hl as [|? ? Hx Hl']; subst.
    destruct n as [|n], m as [|m]; simpl; try lia.
    + assert (0 <= fold_right Z.add 0 (firstn m l)); [|lia].
      specialize (IH 0%nat m ltac:(lia) Hl'). simpl in IH. exact IH.
    + specialize (IH n m ltac:(lia) Hl'). lia.
Qed.

Section Numbering.

Context {coord : Type}.
Implicit Types (f : P3DfmtFile coord) (blk : Block coord).

Lemma block_size_nonneg blk : shape_ok blk -> 0 <= block_size blk.
Proof.
  unfold shape_ok, block_size. destruct (shape blk) as [[di dj] dk]. nia.
Qed.

Lemma offset_zero f : offset f 0 = 0.
Proof. reflexivity. Qed.

Lemma offset_succ f b blk :
  0 <= b -> nth_error (coords f) (Z.to_nat b) = Some blk ->
  offset f (b + 1) = offset f b + block_size blk.
Proof.
  intros Hb Hblk. unfold offset.
  replace (Z.to_nat (b + 1)) with (S (Z.to_nat b)) by lia.
  revert Hblk. generalize (Z.to_nat b) as n. generalize (coords f) as l.
  induction l as [|x l IH]; intros [|n] H; simpl in H; try discriminate.
  - inversion H; subst. simpl. lia.
  - change (firstn (S (S n)) (x :: l)) with (x :: firstn (S n) l).
    change (firstn (S n) (x :: l)) with (x :: firstn n l).
    cbn [map fold_right]. rewrite (IH n H). lia.
Qed.

Lemma offset_mono f b b' :
  Forall shape_ok (coords f) -> 0 <= b <= b' -> offset f b <= offset f b'.
Proof.
  intros Hok Hb. unfold offset. rewrite <- !firstn_map.
  apply sum_firstn_mono; [lia|].
  apply Forall_map. eapply Forall_impl; [|exact Hok].
  intros blk. apply block_size_nonneg.
Qed.

Lemma in_block_points blk i j k :
  In (i, j, k) (block_points blk) <-> in_bounds blk i j k.
Proof.
  unfold block_points, in_bounds. destruct (shape blk) as [[di dj] dk].
  rewrite in_flat_map. split.
  - intros (i0 & Hi & H). apply in_flat_map in H as (j0 & Hj & H).
    apply in_map_iff in H as (k0 & Heq & Hk). inversion Heq; subst.
    rewrite in_xrange in Hi, Hj, Hk. lia.
  - intros (Hi & Hj & Hk). exists i. split; [apply in_xrange; lia|].
    apply in_flat_map. exists j. split; [apply in_xrange; lia|].
    apply in_map_iff. exists k. split; [reflexivity|apply in_xrange; lia].
Qed.

Lemma global_ids_of_block f b blk :
  shape_ok blk -> nth_error (coords f) (Z.to_nat b) = Some blk ->
  map (global_id f b) (block_points blk) =
  xrange (1 + offset f b) (1 + offset f b + block_size blk).
Proof.
  intros Hok Hblk. unfold block_points, block_size, shape_ok in *.
  destruct (shape blk) as [[di dj] dk] eqn:Hshape.
  rewrite <- row_major_positions by lia.
  rewrite map_flat_map. apply flat_map_ext. intros i.
  rewrite map_flat_map. apply flat_map_ext. intros j.
  rewrite map_map. apply map_ext. intros k.
  unfold global_id. rewrite Hblk, Hshape. lia.
Qed.

Lemma global_id_range f b blk i j k :
  nth_error (coords f) (Z.to_nat b) = Some blk -> in_bounds blk i j k ->
  1 + offset f b <= global_id f b (i, j, k) < 1 + offset f b + block_size blk.
Proof.
  intros Hblk Hin. unfold global_id, in_bounds, block_size in *. rewrite Hblk.
  destruct (shape blk) as [[di dj] dk].
  destruct Hin as (Hi & Hj & Hk).
  pose proof (row_major_bounds Hi Hj Hk). lia.
Qed.

(** C2: the numbering is injective and block-contiguous.  For each block
    [b] of extents [(I, J, K)], the indexer over its in-bounds grid points
    gives the [I * J * K] distinct ids of the range that starts one past the
    ranges of the blocks before, and two in-bounds points of any two blocks
    with one id are the same point of the same block. *)
Theorem node_numbering_block_contiguous f :
  loaded f ->
  (forall b blk,
     0 <= b -> nth_error (coords f) (Z.to_nat b) = Some blk ->
     let first := 1 + offset f b in
     (forall i j k, In (i, j, k) (block_points blk) <-> in_bounds blk i j k) /\
     node_ids f b (block_points blk) = ok (xrange first (first + block_size blk)) /\
     List.length (xrange first (first + block_size blk)) = Z.to_nat (block_size blk) /\
     NoDup (xrange first (first + block_size blk)) /\
     offset f 0 = 0 /\
     offset f (b + 1) = offset f b + block_size blk) /\
  (forall b b' blk blk' i j k i' j' k' x,
     0 <= b -> nth_error (coords f) (Z.to_nat b) = Some blk ->
     0 <= b' -> nth_error (coords f) (Z.to_nat b') = Some blk' ->
     in_bounds blk i j k -> in_bounds blk' i' j' k' ->
     _p3d_node_id f b i j k = ok x -> _p3d_node_id f b' i' j' k' = ok x ->
     b = b' /\ (i, j, k) = (i', j', k')).
Proof.
  intros [Hsz Hok]. split.
  - intros b blk Hb Hblk first.
    assert (Hblk_ok : shape_ok blk).
    { rewrite Forall_forall in Hok. apply Hok. eapply nth_error_In, Hblk. }
    repeat split.
    + apply in_block_points.
    + apply in_block_points.
    + unfold node_ids.
      rewrite (map_result_ok _ (global_id f b)).
      * f_equal. now apply global_ids_of_block.
      * intros [[i j] k] _. now apply _p3d_node_id_run with (blk := blk).
    + rewrite xrange_length. f_equal. lia.
    + apply xrange_NoDup.
    + now apply offset_succ.
  - intros b b' blk blk' i j k i' j' k' x Hb Hblk Hb' Hblk' Hin Hin' Hx Hx'.
    rewrite (_p3d_node_id_run _ i j k Hsz Hb Hblk) in Hx.
    rewrite (_p3d_node_id_run _ i' j' k' Hsz Hb' Hblk') in Hx'.
    assert (Hx1 : global_id f b (i, j, k) = x) by (unfold ok in Hx; congruence).
    assert (Hx2 : global_id f b' (i', j', k') = x) by (unfold ok in Hx'; congruence).
    clear Hx Hx'.
    pose proof (@global_id_range f b blk i j k Hblk Hin) as R.
    pose proof (@global_id_range f b' blk' i' j' k' Hblk' Hin') as R'.
    pose proof (@offset_succ f b blk Hb Hblk) as S1.
    pose proof (@offset_succ f b' blk' Hb' Hblk') as S2.
    assert (Hbb : b = b').
    { destruct (Z.lt_trichotomy b b') as [Hlt | [Heq | Hgt]]; [|exact Heq|].
      - pose proof (@offset_mono f (b + 1) b' Hok ltac:(lia)). lia.
      - pose proof (@offset_mono f (b' + 1) b Hok ltac:(lia)). lia. }
    subst b'. split; [reflexivity|].
    assert (blk' = blk) by congruence. subst blk'.
    unfold global_id in Hx1, Hx2. rewrite Hblk in Hx1, Hx2.
    unfold in_bounds in Hin, Hin'.
    destruct (shape blk) as [[di dj] dk].
    destruct (@row_major_injective dj dk i j k i' j' k') as (-> & -> & ->);
      try lia.
    reflexivity.
Qed.

End Numbering.

(** ** Running loops that only append *)

Lemma with_ids_app next xs ys :
  with_ids next (xs ++ ys) =
  with_ids next xs ++ with_ids (next + Z.of_nat (List.length xs)) ys.
Proof.
  revert next. induction xs as [|x xs IH]; intros next.
  - simpl. f_equal. lia.
  - cbn [app with_ids List.length]. rewrite IH.
    replace (next + 1 + Z.of_nat (List.length xs))
      with (next + Z.of_nat (S (List.length xs))) by lia.
    reflexivity.
Qed.

Lemma with_ids_length next xs : List.length (with_ids next xs) = List.length xs.
Proof. revert next. induction xs; intros; simpl; auto. Qed.

Lemma with_ids_el_id next xs :
  map (hd 0) (with_ids next xs) = xrange next (next + Z.of_nat (List.length xs)).
Proof.
  revert next. induction xs as [|x xs IH]; intros next.
  - simpl. now rewrite xrange_nil by lia.
  - cbn [with_ids map hd List.length]. rewrite xrange_cons by lia.
    rewrite IH. do 2 f_equal. lia.
Qed.

Lemma flat_map_singleton {A B} (g : A -> B) (l : list A) :
  flat_map (fun a => [g a]) l = map g l.
Proof. induction l; simpl; congruence. Qed.

Section Running.

Context {coord : Type}.
Implicit Types (s : GmshFile coord).

Lemma extend_nil s : extend [] [] [] s = s.
Proof.
  destruct s. unfold extend. simpl. rewrite !app_nil_r. f_equal. lia.
Qed.

Lemma extend_extend ns1 bs1 gs1 ns2 bs2 gs2 s :
  extend ns2 bs2 gs2 (extend ns1 bs1 gs1 s) =
  extend (ns1 ++ ns2) (bs1 ++ bs2) (gs1 ++ gs2) s.
Proof.
  unfold extend. simpl. rewrite with_ids_app, length_app, <- !app_assoc.
  f_equal; [lia|]. do 2 f_equal. f_equal. lia.
Qed.

(** A loop whose body always returns, appending what [N], [B] and [G] give
    for the loop variable, appends all of it in loop order. *)
Lemma for_extends {A} (l : list A) (body : A -> M coord unit) N B G :
  (forall a s, In a l -> body a s = (ok tt, extend (N a) (B a) (G a) s)) ->
  forall s, for_ l body s =
            (ok tt, extend (flat_map N l) (flat_map B l) (flat_map G l) s).
Proof.
  induction l as [|a l IH]; intros H s.
  - simpl. unfold ret. now rewrite extend_nil.
  - cbn [for_ flat_map]. unfold bind at 1. rewrite H by now left.
    cbn [ok]. rewrite IH by (intros; apply H; now right).
    now rewrite extend_extend.
Qed.

Lemma get_next_then_append (body : list Z) (k : Z -> result (list Z)) ns s :
  (forall el_id, k el_id = ok ns) ->
  (el_id <- get_next_element_id ;;
   r <- lift (k el_id) ;;
   append_element (el_id :: body ++ r)) s =
  (ok tt, extend [] [body ++ ns] [] s).
Proof.
  intros Hk. unfold bind, get_next_element_id, lift, append_element, extend.
  cbn [ok]. rewrite Hk. cbn [ok with_ids List.length elements element_id nodes groups].
  rewrite !app_nil_r. reflexivity.
Qed.

End Running.

Lemma flat_map_nil {A B} (l : list A) : flat_map (fun _ : A => @nil B) l = [].
Proof. induction l; simpl; auto. Qed.

Section VolumeElements.

Context {coord : Type}.
Implicit Types (f : P3DfmtFile coord) (blk : Block coord) (s : GmshFile coord).

Lemma for_appends_nodes {A} (l : list A) (body : A -> M coord unit) N :
  (forall a s, In a l -> body a s = (ok tt, extend (N a) [] [] s)) ->
  forall s, for_ l body s = (ok tt, extend (flat_map N l) [] [] s).
Proof.
  intros H s.
  rewrite (for_extends l body N (fun _ => []) (fun _ => []) H).
  now rewrite !flat_map_nil.
Qed.

Lemma for_appends_elements {A} (l : list A) (body : A -> M coord unit) B :
  (forall a s, In a l -> body a s = (ok tt, extend [] (B a) [] s)) ->
  forall s, for_ l body s = (ok tt, extend [] (flat_map B l) [] s).
Proof.
  intros H s.
  rewrite (for_extends l body (fun _ => []) B (fun _ => []) H).
  now rewrite !flat_map_nil.
Qed.

Lemma shifted_corners j k :
  map (fun s : Z * Z * Z => let '(s0, s1, s2) := s in (s0, j + s1, k + s2)) shifts
  = hex_corners j k.
Proof.
  unfold shifts, hex_corners. cbn [map]. rewrite !Z.add_0_r. reflexivity.
Qed.

Lemma node_ids_run f n blk ps :
  nblocks f = Z.of_nat (List.length (coords f)) ->
  0 <= n -> nth_error (coords f) (Z.to_nat n) = Some blk ->
  node_ids f n ps = ok (map (global_id f n) ps).
Proof.
  intros Hsz Hn Hblk. unfold node_ids. apply map_result_ok.
  intros [[i j] k] _. now apply _p3d_node_id_run with (blk := blk).
Qed.

Lemma map_result_map {A B C} (g : A -> B) (h : B -> result C) (l : list A) :
  map_result h (map g l) = map_result (fun a => h (g a)) l.
Proof.
  induction l as [|a l IH]; simpl; [reflexivity|]. now rewrite IH.
Qed.

Lemma map_result_ext {A B} (g h : A -> result B) (l : list A) :
  (forall a, g a = h a) -> map_result g l = map_result h l.
Proof.
  intros H. induction l as [|a l IH]; simpl; [reflexivity|].
  now rewrite H, IH.
Qed.

(** [_consume_block] on an existing block returns, having appended the
    nodes of the block and one hexahedron per cell of its [(j, k)] plane. *)
Lemma consume_block_run f blkn blk s :
  nblocks f = Z.of_nat (List.length (coords f)) ->
  0 <= blkn -> nth_error (coords f) (Z.to_nat blkn) = Some blk ->
  _consume_block f blkn s =
  (ok tt, extend (block_nodes f blkn blk)
                 (map (hex_body f blkn) (hex_cells blk)) [] s).
Proof.
  intros Hsz Hn Hblk. unfold _consume_block.
  unfold bind at 1, lift at 1. rewrite py_getitem_nth by assumption.
  rewrite Hblk. cbn [ok].
  unfold block_nodes, block_points, hex_cells.
  destruct (shape blk) as [[idim jdim] kdim].
  unfold bind at 1.
  rewrite (for_appends_nodes _ _
    (fun i => flat_map (fun j => map (fun k =>
       (global_id f blkn (i, j, k), xs blk i j k, ys blk i j k, zs blk i j k))
       (xrange 0 kdim)) (xrange 0 jdim))).
  2:{ intros i s0 _.
      apply (for_appends_nodes _ _
        (fun j => map (fun k =>
           (global_id f blkn (i, j, k), xs blk i j k, ys blk i j k, zs blk i j k))
           (xrange 0 kdim))).
      intros j s1 _.
      rewrite <- flat_map_singleton.
      apply for_appends_nodes.
      intros k s2 _. unfold bind, lift.
      rewrite (_p3d_node_id_run _ i j k Hsz Hn Hblk). cbn [ok].
      unfold append_node, extend. simpl. rewrite !app_nil_r.
      do 2 f_equal. lia. }
  cbn [ok].
  rewrite (for_appends_elements _ _
    (fun j => map (fun k => hex_body f blkn (j, k)) (xrange 1 kdim))).
  2:{ intros j s0 _.
      rewrite <- flat_map_singleton.
      apply for_appends_elements.
      intros k s1 _.
      apply (get_next_then_append [5; 2; 1; -1]
               (fun _ => map_result
                  (fun s : Z * Z * Z => let '(s0, s1, s2) := s in
                     _p3d_node_id f blkn s0 (j + s1) (k + s2)) shifts)).
      intros _. rewrite <- shifted_corners.
      rewrite <- (@node_ids_run f blkn blk _ Hsz Hn Hblk). unfold node_ids.
      rewrite map_result_map. apply map_result_ext.
      intros [[s0' s1'] s2']. reflexivity. }
  rewrite extend_extend. rewrite app_nil_r. cbn [app].
  do 2 f_equal.
  - rewrite map_flat_map. apply flat_map_ext. intros i.
    rewrite map_flat_map. apply flat_map_ext. intros j.
    now rewrite map_map.
  - rewrite map_flat_map. apply flat_map_ext. intros j.
    now rewrite map_map.
Qed.

End VolumeElements.

(** ** Cells of a plane *)

Lemma pairs_NoDup {A B C} (g : A -> B -> C) (l1 : list A) (l2 : list B) :
  (forall a b a' b', g a b = g a' b' -> a = a' /\ b = b') ->
  NoDup l1 -> NoDup l2 ->
  NoDup (flat_map (fun a => map (g a) l2) l1).
Proof.
  intros Hg H1 H2. induction H1 as [|a l1 Ha H1 IH]; simpl; [constructor|].
  apply NoDup_app.
  - apply Injective_map_NoDup_in; [|assumption].
    intros x y _ _ Heq. now apply Hg in Heq.
  - exact IH.
  - intros c Hc Hc'. apply in_map_iff in Hc as (b & <- & Hb).
    apply in_flat_map in Hc' as (a' & Ha' & Hc').
    apply in_map_iff in Hc' as (b' & Heq & Hb').
    apply Hg in Heq as [-> _]. contradiction.
Qed.

Lemma pairs_length {A B C} (g : A -> B -> C) (l1 : list A) (l2 : list B) :
  List.length (flat_map (fun a => map (g a) l2) l1)
  = (List.length l1 * List.length l2)%nat.
Proof.
  apply flat_map_constant_length. intros a _. apply length_map.
Qed.

Section VolumeClaim.

Context {coord : Type}.
Implicit Types (f : P3DfmtFile coord) (blk : Block coord) (s : GmshFile coord).

Lemma in_hex_cells blk di dj dk j k :
  shape blk = (di, dj, dk) ->
  In (j, k) (hex_cells blk) <-> 1 <= j < dj /\ 1 <= k < dk.
Proof.
  intros Hs. unfold hex_cells. rewrite Hs.
  rewrite (in_flat_map_pair (fun _ => xrange 1 dk) (fun j k => (j, k))).
  split.
  - intros (a & b & Ha & Hb & Heq). inversion Heq; subst.
    rewrite in_xrange in Ha, Hb. lia.
  - intros [Hj Hk]. exists j, k. rewrite !in_xrange. auto.
Qed.

Lemma hex_cells_length blk di dj dk :
  shape blk = (di, dj, dk) -> 1 <= dj -> 1 <= dk ->
  Z.of_nat (List.length (hex_cells blk)) = (dj - 1) * (dk - 1).
Proof.
  intros Hs Hj Hk. unfold hex_cells. rewrite Hs.
  rewrite pairs_length, !xrange_length. nia.
Qed.

(** The plane of a block with [J = 2], [K = 2] has one cell, that of a
    block with [J = 3], [K = 2] two, whatever [I]. *)
Lemma hex_cells_length_examples blk blk' di di' :
  shape blk = (di, 2, 2) -> shape blk' = (di', 3, 2) ->
  List.length (hex_cells blk) = 1%nat /\ List.length (hex_cells blk') = 2%nat.
Proof.
  intros Hs Hs'.
  pose proof (@hex_cells_length blk di 2 2 Hs ltac:(lia) ltac:(lia)).
  pose proof (@hex_cells_length blk' di' 3 2 Hs' ltac:(lia) ltac:(lia)).
  lia.
Qed.

(** C3: on a block of extents [(I, J, K)] the volume element generator
    returns having appended exactly [(J - 1) * (K - 1)] hexahedra, one per
    cell [(j, k)] with [1 <= j < J] and [1 <= k < K], each
    [[id, 5, 2, 1, -1]] followed by the indexer's ids of
    [(0,j-1,k-1), (0,j,k-1), (0,j,k), (0,j-1,k), (1,j-1,k-1), (1,j,k-1),
    (1,j,k), (1,j-1,k)]: the first axis stays at 0 and 1 whatever [I]. *)
Theorem consume_block_hexahedra f blkn blk di dj dk s :
  nblocks f = Z.of_nat (List.length (coords f)) ->
  0 <= blkn -> nth_error (coords f) (Z.to_nat blkn) = Some blk ->
  shape blk = (di, dj, dk) -> 1 <= dj -> 1 <= dk ->
  exists s',
    _consume_block f blkn s = (ok tt, s') /\
    elements s' =
      elements s ++ with_ids (element_id s + 1)
                             (map (hex_body f blkn) (hex_cells blk)) /\
    Z.of_nat (List.length (hex_cells blk)) = (dj - 1) * (dk - 1) /\
    NoDup (hex_cells blk) /\
    (forall j k, In (j, k) (hex_cells blk) <-> 1 <= j < dj /\ 1 <= k < dk) /\
    (forall j k,
       hex_body f blkn (j, k) =
         [5; 2; 1; -1] ++ map (global_id f blkn) (hex_corners j k) /\
       node_ids f blkn
         [ (0, j - 1, k - 1); (0, j, k - 1); (0, j, k); (0, j - 1, k);
           (1, j - 1, k - 1); (1, j, k - 1); (1, j, k); (1, j - 1, k) ]
       = ok (map (global_id f blkn) (hex_corners j k))) /\
    element_id s' = element_id s + (dj - 1) * (dk - 1).
Proof.
  intros Hsz Hn Hblk Hs Hj Hk.
  eexists. split; [apply (@consume_block_run _ f blkn blk s Hsz Hn Hblk)|].
  pose proof (@hex_cells_length blk di dj dk Hs Hj Hk) as Hlen.
  split; [reflexivity|].
  split; [exact Hlen|].
  split.
  { unfold hex_cells. rewrite Hs. apply pairs_NoDup; auto using xrange_NoDup.
    intros a b a' b' Heq. now inversion Heq. }
  split; [intros j k; apply (in_hex_cells blk j k Hs)|].
  split.
  { intros j k. split; [reflexivity|].
    apply (@node_ids_run _ f blkn blk _ Hsz Hn Hblk). }
  cbn [extend element_id]. rewrite length_map. lia.
Qed.

End VolumeClaim.

(** ** The boundary face generator *)

Section BoundaryFaces.

Context {coord : Type}.
Implicit Types (f : P3DfmtFile coord) (blk : Block coord).

Lemma append_group_run (g : group) (s : GmshFile coord) :
  append_group g s = (ok tt, extend [] [] [g] s).
Proof.
  unfold append_group, extend. simpl. now rewrite !app_nil_r, Z.add_0_r.
Qed.

Lemma emit_quad_run f blkn blk gid p1 p2 p3 p4 s :
  nblocks f = Z.of_nat (List.length (coords f)) ->
  0 <= blkn -> nth_error (coords f) (Z.to_nat blkn) = Some blk ->
  emit_quad f blkn gid p1 p2 p3 p4 s =
  (ok tt, extend [] [[3; 2; gid; -1] ++ map (global_id f blkn) [p1; p2; p3; p4]]
                 [] s).
Proof.
  intros Hsz Hn Hblk.
  destruct p1 as [[i1 j1] k1], p2 as [[i2 j2] k2],
           p3 as [[i3 j3] k3], p4 as [[i4 j4] k4].
  unfold emit_quad, bind, get_next_element_id, lift.
  rewrite !(fun i j k => @_p3d_node_id_run _ f blkn blk i j k Hsz Hn Hblk).
  cbn [ok]. unfold append_element, extend.
  cbn [element_id nodes elements groups List.length with_ids map app].
  now rewrite !app_nil_r.
Qed.

Lemma quad_loops_run f blkn blk gid (l2 l1 : list Z)
    (P1 P2 P3 P4 : Z -> Z -> Z * Z * Z) s :
  nblocks f = Z.of_nat (List.length (coords f)) ->
  0 <= blkn -> nth_error (coords f) (Z.to_nat blkn) = Some blk ->
  for_ l2 (fun v2 => for_ l1 (fun v1 =>
    emit_quad f blkn gid (P1 v1 v2) (P2 v1 v2) (P3 v1 v2) (P4 v1 v2))) s =
  (ok tt,
   extend []
     (flat_map (fun v2 => map (fun v1 =>
        [3; 2; gid; -1]
        ++ map (global_id f blkn) [P1 v1 v2; P2 v1 v2; P3 v1 v2; P4 v1 v2]) l1) l2)
     [] s).
Proof.
  intros Hsz Hn Hblk.
  apply for_appends_elements. intros v2 s0 _.
  rewrite <- flat_map_singleton.
  apply for_appends_elements. intros v1 s1 _.
  now apply emit_quad_run with (blk := blk).
Qed.

Lemma gen_boundary_run f b s g blkno face s1 e1 s2 e2 blk :
  nblocks f = Z.of_nat (List.length (coords f)) ->
  max_group (groups s) = ok g ->
  ints b = [blkno; face; s1; e1; s2; e2] ->
  1 <= blkno -> nth_error (coords f) (Z.to_nat (blkno - 1)) = Some blk ->
  let gid := group_id g + 1 in
  let nb := (2, gid, ("b" ++ str_of_int gid ++ "-" ++ label b)%string) in
  _gen_boundary f b s =
  match face_table face with
  | Some row =>
      (ok tt,
       extend [] (map (quad_body f (blkno - 1) gid row (shape blk))
                      (swept_cells face s1 e1 s2 e2)) [nb] s)
  | None => (inl unknown_face, extend [] [] [nb] s)
  end.
Proof.
  intros Hsz Hmax Hints Hno Hblk gid nb.
  assert (Hn : 0 <= blkno - 1) by lia.
  unfold _gen_boundary.
  unfold bind at 1, _next_group_id. rewrite Hmax. cbn [rbind ok].
  fold gid. fold nb.
  unfold bind at 1. rewrite append_group_run. cbn [ok].
  unfold bind at 1, lift at 1, bdry_item. rewrite Hints. cbn [nth_error Nat.sub ok].
  unfold bind at 1, lift at 1. rewrite py_getitem_nth by assumption.
  rewrite Hblk. cbn [ok].
  destruct (shape blk) as [[di dj] dk] eqn:Hshape.
  unfold bind at 1, lift at 1, unpack4. rewrite Hints.
  cbn [skipn firstn ok].
  unfold bind at 1, lift at 1. cbn [nth_error Nat.sub ok].
  unfold face_table, swept_cells.
  destruct (Z.eqb_spec face 1) as [->|_];
    [|destruct (Z.eqb_spec face 2) as [->|_];
      [|destruct (Z.eqb_spec face 3) as [->|_];
        [|destruct (Z.eqb_spec face 4) as [->|_];
          [|destruct (Z.eqb_spec face 5) as [->|_];
            [|destruct (Z.eqb_spec face 6) as [->|_]]]]]];
    try (rewrite (@quad_loops_run f (blkno - 1) blk gid _ _ _ _ _ _ _ Hsz Hn Hblk);
         rewrite extend_extend; cbn [app];
         do 2 f_equal;
         rewrite map_flat_map; apply flat_map_ext; intros v2;
         rewrite map_map; apply map_ext; intros v1; reflexivity).
  reflexivity.
Qed.

End BoundaryFaces.

Section BoundaryClaims.

Context {coord : Type}.
Implicit Types (f : P3DfmtFile coord) (blk : Block coord).

Lemma in_swept_cells face s1 e1 s2 e2 a c :
  In (a, c) (swept_cells face s1 e1 s2 e2) <->
  if face <=? 4
  then s1 - 1 <= a < e1 - 1 /\ s2 - 1 <= c < e2 - 1
  else s2 - 1 <= a < e2 - 1 /\ s1 - 1 <= c < e1 - 1.
Proof.
  unfold swept_cells.
  rewrite (in_flat_map_pair (fun _ => xrange (s1 - 1) (e1 - 1))
             (fun v2 v1 => if face <=? 4 then (v1, v2) else (v2, v1))).
  destruct (face <=? 4); split.
  - intros (v2 & v1 & H2 & H1 & Heq). inversion Heq; subst.
    rewrite in_xrange in H1, H2. lia.
  - intros [Ha Hc]. exists c, a. rewrite !in_xrange. auto.
  - intros (v2 & v1 & H2 & H1 & Heq). inversion Heq; subst.
    rewrite in_xrange in H1, H2. lia.
  - intros [Ha Hc]. exists a, c. rewrite !in_xrange. auto.
Qed.

Lemma swept_cells_NoDup face s1 e1 s2 e2 : NoDup (swept_cells face s1 e1 s2 e2).
Proof.
  unfold swept_cells.
  apply (pairs_NoDup (fun v2 v1 => if face <=? 4 then (v1, v2) else (v2, v1)));
    auto using xrange_NoDup.
  intros v2 v1 v2' v1'. destruct (face <=? 4); intros Heq; now inversion Heq.
Qed.

(** C4, as the generator has it: for a record of face 1 to 6 on an existing
    block, with range bounds that [xrange] accepts (they fit a C long), the
    generator returns having allocated one group and appended
    one quadrilateral per swept cell [(a, b)], the fixed axis at the table's
    value and the corners [(a,b), (a+1,b), (a+1,b+1), (a,b+1)] wound along
    the table's tangential axes.  On faces 1 to 4 the first range sweeps the
    first tangential axis and the second range the second; on faces 5 and 6
    the first range sweeps the third axis [k] and the second range the
    first axis [i]. *)
Theorem gen_boundary_quadrilaterals f b s g blkno face s1 e1 s2 e2 blk row :
  nblocks f = Z.of_nat (List.length (coords f)) ->
  max_group (groups s) = ok g ->
  ints b = [blkno; face; s1; e1; s2; e2] ->
  1 <= blkno -> nth_error (coords f) (Z.to_nat (blkno - 1)) = Some blk ->
  face_table face = Some row ->
  ranges_fit_long s1 e1 s2 e2 ->
  let gid := group_id g + 1 in
  let nb := (2, gid, ("b" ++ str_of_int gid ++ "-" ++ label b)%string) in
  _gen_boundary f b s =
    (ok tt,
     extend [] (map (quad_body f (blkno - 1) gid row (shape blk))
                    (swept_cells face s1 e1 s2 e2)) [nb] s) /\
  NoDup (swept_cells face s1 e1 s2 e2) /\
  (forall a c,
     In (a, c) (swept_cells face s1 e1 s2 e2) <->
     if face <=? 4
     then s1 - 1 <= a < e1 - 1 /\ s2 - 1 <= c < e2 - 1
     else s2 - 1 <= a < e2 - 1 /\ s1 - 1 <= c < e1 - 1) /\
  (forall a c,
     node_ids f (blkno - 1)
       [ face_point row (shape blk) a c; face_point row (shape blk) (a + 1) c;
         face_point row (shape blk) (a + 1) (c + 1);
         face_point row (shape blk) a (c + 1) ]
     = ok (skipn 4 (quad_body f (blkno - 1) gid row (shape blk) (a, c)))) /\
  (5 <= face ->
   forall a c, exists fixed,
     face_point row (shape blk) a c = (a, fixed, c)).
Proof.
  intros Hsz Hmax Hints Hno Hblk Hrow _ gid nb.
  split.
  { rewrite (@gen_boundary_run _ f b s g blkno face s1 e1 s2 e2 blk
               Hsz Hmax Hints Hno Hblk).
    now rewrite Hrow. }
  split; [apply swept_cells_NoDup|].
  split; [intros a c; apply in_swept_cells|].
  split.
  { intros a c. apply (@node_ids_run _ f (blkno - 1) blk); auto. lia. }
  intros Hface a c. unfold face_table in Hrow.
  destruct (Z.eqb_spec face 1); [lia|].
  destruct (Z.eqb_spec face 2); [lia|].
  destruct (Z.eqb_spec face 3); [lia|].
  destruct (Z.eqb_spec face 4); [lia|].
  destruct (Z.eqb_spec face 5);
    [|destruct (Z.eqb_spec face 6); [|discriminate]];
    inversion Hrow; subst row; eexists; reflexivity.
Qed.

End BoundaryClaims.

(** ** Outcomes of methods *)

Section Hoare.

Context {coord : Type}.
Implicit Types (P I : GmshFile coord -> Prop) (E : exn -> GmshFile coord -> Prop).

Lemma hoare_ret {A} (a : A) P (Q : A -> GmshFile coord -> Prop) E :
  (forall s, P s -> Q a s) -> hoare P (ret a) Q E.
Proof. intros H s Hs. now apply H. Qed.

Lemma hoare_bind {A B} (m : M coord A) (k : A -> M coord B) P Q
    (R : B -> GmshFile coord -> Prop) E :
  hoare P m Q E -> (forall a, hoare (Q a) (k a) R E) -> hoare P (bind m k) R E.
Proof.
  intros Hm Hk s Hs. unfold bind. specialize (Hm s Hs).
  destruct (m s) as [[e|a] s']; [exact Hm|]. now apply Hk.
Qed.

Lemma hoare_lift {A} (r : result A) P (Q : A -> GmshFile coord -> Prop) E :
  (forall a s, r = inr a -> P s -> Q a s) ->
  (forall e s, r = inl e -> P s -> E e s) ->
  hoare P (lift r) Q E.
Proof.
  intros HQ HE s Hs. unfold lift. destruct r as [e|a]; auto.
Qed.

Lemma hoare_weaken {A} (m : M coord A) P P' (Q Q' : A -> GmshFile coord -> Prop)
    E E' :
  hoare P m Q E ->
  (forall s, P' s -> P s) ->
  (forall a s, Q a s -> Q' a s) ->
  (forall e s, E e s -> E' e s) ->
  hoare P' m Q' E'.
Proof.
  intros H HP HQ HE s Hs. specialize (H s (HP s Hs)).
  destruct (m s) as [[e|a] s']; auto.
Qed.

(** A loop keeps what each turn keeps; [I] may depend on the part of the
    list gone through. *)
Lemma hoare_for_prefix {A} (l : list A) (body : A -> M coord unit)
    (I : list A -> GmshFile coord -> Prop) E :
  (forall pre a post, l = pre ++ a :: post ->
     hoare (I pre) (body a) (fun _ => I (pre ++ [a])) E) ->
  hoare (I []) (for_ l body) (fun _ => I l) E.
Proof.
  intros H.
  assert (G : forall post pre, l = pre ++ post ->
                hoare (I pre) (for_ post body) (fun _ => I l) E).
  { induction post as [|a post IH]; intros pre Hl.
    - rewrite app_nil_r in Hl. rewrite Hl. now apply hoare_ret.
    - cbn [for_]. eapply hoare_bind; [now apply (H pre a post)|].
      intros []. apply IH. rewrite Hl, <- app_assoc. reflexivity. }
  now apply (G l []).
Qed.

Lemma hoare_for {A} (l : list A) (body : A -> M coord unit) I E :
  (forall a, In a l -> hoare I (body a) (fun _ => I) E) ->
  hoare I (for_ l body) (fun _ => I) E.
Proof.
  intros H. apply (@hoare_for_prefix A l body (fun _ => I)).
  intros pre a post Hl. apply H. rewrite Hl. apply in_elt.
Qed.

End Hoare.

(** ** Which exceptions the generators raise *)

Lemma py_getitem_raises {A} kind (l : list A) n e :
  py_getitem kind l n = inl e -> exn_cls e = IndexError.
Proof.
  unfold py_getitem.
  destruct (if 0 <=? _ then _ else _); intros H; inversion H. reflexivity.
Qed.

Section Raises.

Context {coord : Type}.
Implicit Types (f : P3DfmtFile coord).

Lemma sum_sizes_raises f idxs : forall basen e,
  sum_sizes f idxs basen = inl e -> exn_cls e = IndexError.
Proof.
  induction idxs as [|idx rest IH]; intros basen e H; simpl in H.
  - discriminate.
  - destruct (py_getitem "list" (coords f) idx) as [e'|blk] eqn:Hget.
    + simpl in H. inversion H; subst. eapply py_getitem_raises, Hget.
    + simpl in H. destruct (shape blk) as [[di dj] dk]. eapply IH, H.
Qed.

Lemma _p3d_node_id_raises f n i j k e :
  _p3d_node_id f n i j k = inl e -> exn_cls e = IndexError.
Proof.
  unfold _p3d_node_id. destruct (nblocks f <=? n).
  - intros H. inversion H. reflexivity.
  - destruct (if 1 <? nblocks f then _ else _) as [e'|basen] eqn:Hbase.
    + intros H. simpl in H. inversion H; subst.
      destruct (1 <? nblocks f); [|discriminate].
      eapply sum_sizes_raises, Hbase.
    + cbn [rbind].
      destruct (py_getitem "list" (coords f) n) as [e'|blk] eqn:Hget.
      * intros H. simpl in H. inversion H; subst.
        eapply py_getitem_raises, Hget.
      * cbn [rbind]. destruct (shape blk) as [[di dj] dk]. discriminate.
Qed.

End Raises.

Section FaceErrors.

Context {coord : Type}.
Implicit Types (f : P3DfmtFile coord) (blk : Block coord).

Lemma emit_quad_raises f blkn gid p1 p2 p3 p4 :
  hoare (fun _ => True) (emit_quad f blkn gid p1 p2 p3 p4)
        (fun _ _ => True) raises_index_error.
Proof.
  destruct p1 as [[i1 j1] k1], p2 as [[i2 j2] k2],
           p3 as [[i3 j3] k3], p4 as [[i4 j4] k4].
  unfold emit_quad.
  eapply hoare_bind with (Q := fun _ _ => True); [intros s _; exact I|].
  intros el_id.
  repeat (eapply hoare_bind with (Q := fun _ _ => True);
          [apply hoare_lift;
           [auto | intros e s H _; eapply _p3d_node_id_raises, H]
          |intros ?]).
  intros s _. exact I.
Qed.

Lemma quad_loops_raise f blkn gid (l2 l1 : list Z)
    (P1 P2 P3 P4 : Z -> Z -> Z * Z * Z) :
  hoare (fun _ => True)
        (for_ l2 (fun v2 => for_ l1 (fun v1 =>
           emit_quad f blkn gid (P1 v1 v2) (P2 v1 v2) (P3 v1 v2) (P4 v1 v2))))
        (fun _ _ => True) raises_index_error.
Proof.
  apply hoare_for. intros v2 _. apply hoare_for. intros v1 _.
  apply emit_quad_raises.
Qed.

Lemma quad_loops_not_unknown_face f blkn gid (l2 l1 : list Z)
    (P1 P2 P3 P4 : Z -> Z -> Z * Z * Z) s s' :
  for_ l2 (fun v2 => for_ l1 (fun v1 =>
     emit_quad f blkn gid (P1 v1 v2) (P2 v1 v2) (P3 v1 v2) (P4 v1 v2))) s
  <> (inl unknown_face, s').
Proof.
  intros H.
  pose proof (@quad_loops_raise f blkn gid l2 l1 P1 P2 P3 P4 s I) as R.
  rewrite H in R. discriminate R.
Qed.

(** The unknown-face error comes from the last branch of [_gen_boundary]
    only: the record has a face id outside the table, and by then its group
    has been allocated and appended. *)
Lemma gen_boundary_unknown_face f b s s' :
  _gen_boundary f b s = (inl unknown_face, s') ->
  exists nb face,
    next_group s b = ok nb /\ s' = extend [] [] [nb] s /\
    nth_error (ints b) 1 = Some face /\ face_table face = None.
Proof.
  unfold _gen_boundary, next_group.
  unfold bind at 1, _next_group_id.
  destruct (max_group (groups s)) as [e|g] eqn:Hmax.
  { intros H. inversion H; subst.
    unfold max_group in Hmax. destruct (groups _); discriminate. }
  cbn [rbind ok].
  unfold bind at 1. rewrite append_group_run. cbn [ok].
  unfold bind at 1, lift at 1.
  destruct (bdry_item b 1) as [e|b1] eqn:H1.
  { intros H. inversion H; subst.
    unfold bdry_item in H1. destruct (nth_error _ _); discriminate. }
  unfold bind at 1, lift at 1.
  destruct (py_getitem "list" (coords f) (b1 - 1)) as [e|blk] eqn:Hget.
  { intros H. inversion H; subst. apply py_getitem_raises in Hget. discriminate. }
  destruct (shape blk) as [[di dj] dk].
  unfold bind at 1, lift at 1.
  destruct (unpack4 b) as [e|[[[s1 e1] s2] e2]] eqn:Hun.
  { intros H. inversion H; subst.
    unfold unpack4 in Hun.
    destruct (firstn 4 (skipn 2 (ints b))) as [|? [|? [|? [|? [|? ?]]]]];
      cbn in Hun; discriminate. }
  unfold bind at 1, lift at 1.
  destruct (bdry_item b 2) as [e|face] eqn:H2.
  { intros H. inversion H; subst.
    unfold bdry_item in H2. destruct (nth_error _ _); discriminate. }
  unfold bdry_item in H2. cbn [Nat.sub] in H2.
  destruct (nth_error (ints b) 1) as [face'|] eqn:Hface; [|discriminate].
  assert (face' = face) by (unfold ok in H2; congruence). subst face'.
  destruct (face =? 1) eqn:F1; [intros H; now apply quad_loops_not_unknown_face in H|].
  destruct (face =? 2) eqn:F2; [intros H; now apply quad_loops_not_unknown_face in H|].
  destruct (face =? 3) eqn:F3; [intros H; now apply quad_loops_not_unknown_face in H|].
  destruct (face =? 4) eqn:F4; [intros H; now apply quad_loops_not_unknown_face in H|].
  destruct (face =? 5) eqn:F5; [intros H; now apply quad_loops_not_unknown_face in H|].
  destruct (face =? 6) eqn:F6; [intros H; now apply quad_loops_not_unknown_face in H|].
  unfold lift. intros H. inversion H; subst.
  eexists _, face. repeat split; try reflexivity.
  unfold face_table. now rewrite F1, F2, F3, F4, F5, F6.
Qed.

End FaceErrors.

Lemma face_table_None face : face_table face = None <-> ~ (1 <= face <= 6).
Proof.
  unfold face_table.
  destruct (Z.eqb_spec face 1); [split; [discriminate|lia]|].
  destruct (Z.eqb_spec face 2); [split; [discriminate|lia]|].
  destruct (Z.eqb_spec face 3); [split; [discriminate|lia]|].
  destruct (Z.eqb_spec face 4); [split; [discriminate|lia]|].
  destruct (Z.eqb_spec face 5); [split; [discriminate|lia]|].
  destruct (Z.eqb_spec face 6); [split; [discriminate|lia]|].
  split; [lia|reflexivity].
Qed.

Section FaceClaims.

Context {coord : Type}.

(** C7: a record on an existing block whose face id lies outside 1..6
    makes the boundary face generator fail with the unknown-face error, and
    no record with a face id in 1..6 ever makes it raise that error. *)
Theorem gen_boundary_invalid_face :
  (forall (f : P3DfmtFile coord) b (s : GmshFile coord) g
          blkno face s1 e1 s2 e2 blk,
     nblocks f = Z.of_nat (List.length (coords f)) ->
     max_group (groups s) = ok g ->
     ints b = [blkno; face; s1; e1; s2; e2] ->
     1 <= blkno -> nth_error (coords f) (Z.to_nat (blkno - 1)) = Some blk ->
     ~ (1 <= face <= 6) ->
     fst (_gen_boundary f b s) = inl unknown_face) /\
  (forall (f : P3DfmtFile coord) b (s : GmshFile coord) face,
     nth_error (ints b) 1 = Some face ->
     1 <= face <= 6 ->
     fst (_gen_boundary f b s) <> inl unknown_face).
Proof.
  split.
  - intros f b s g blkno face s1 e1 s2 e2 blk Hsz Hmax Hints Hno Hblk Hface.
    rewrite (@gen_boundary_run _ f b s g blkno face s1 e1 s2 e2 blk
               Hsz Hmax Hints Hno Hblk).
    apply face_table_None in Hface. now rewrite Hface.
  - intros f b s face Hface Hin Hraise.
    destruct (_gen_boundary f b s) as [r s'] eqn:Hrun. simpl in Hraise.
    subst r. apply gen_boundary_unknown_face in Hrun
      as (nb & face' & _ & _ & Hface' & Hnone).
    assert (face' = face) by congruence. subst face'.
    apply face_table_None in Hnone. contradiction.
Qed.

(** C10: on a face id outside 1..6 the unknown-face error is raised only
    after the record's group has been allocated and appended: the state
    left behind is the state before with that one group more, and nothing
    else changed. *)
Theorem gen_boundary_group_precedes_face_check :
  (forall (f : P3DfmtFile coord) b (s : GmshFile coord) g
          blkno face s1 e1 s2 e2 blk,
     nblocks f = Z.of_nat (List.length (coords f)) ->
     max_group (groups s) = ok g ->
     ints b = [blkno; face; s1; e1; s2; e2] ->
     1 <= blkno -> nth_error (coords f) (Z.to_nat (blkno - 1)) = Some blk ->
     ~ (1 <= face <= 6) ->
     let gid := group_id g + 1 in
     let nb := (2, gid, ("b" ++ str_of_int gid ++ "-" ++ label b)%string) in
     fst (_gen_boundary f b s) = inl unknown_face /\
     groups (snd (_gen_boundary f b s)) = groups s ++ [nb] /\
     snd (_gen_boundary f b s) <> s) /\
  (forall (f : P3DfmtFile coord) b (s s' : GmshFile coord),
     _gen_boundary f b s = (inl unknown_face, s') ->
     exists nb,
       next_group s b = ok nb /\
       groups s' = groups s ++ [nb] /\
       elements s' = elements s /\ nodes s' = nodes s /\
       element_id s' = element_id s).
Proof.
  split.
  - intros f b s g blkno face s1 e1 s2 e2 blk Hsz Hmax Hints Hno Hblk Hface
           gid nb.
    rewrite (@gen_boundary_run _ f b s g blkno face s1 e1 s2 e2 blk
               Hsz Hmax Hints Hno Hblk).
    apply face_table_None in Hface. rewrite Hface. cbn [fst snd].
    repeat split.
    intros Heq. apply (f_equal (fun x => List.length (groups x))) in Heq.
    cbn [extend groups] in Heq. rewrite length_app in Heq. simpl in Heq. lia.
  - intros f b s s' Hrun.
    apply gen_boundary_unknown_face in Hrun as (nb & face & Hnb & -> & _ & _).
    exists nb. cbn [extend groups elements nodes element_id with_ids List.length].
    rewrite !app_nil_r. repeat split; auto. lia.
Qed.

End FaceClaims.

(** ** Element ids and group ids across a conversion *)

Lemma ids_dense_snoc els el :
  ids_dense els -> el_id el = Z.of_nat (List.length els) + 1 ->
  ids_dense (els ++ [el]).
Proof.
  unfold ids_dense. intros H Hid.
  rewrite map_app, length_app, H. cbn [map List.length].
  replace (1 + Z.of_nat (List.length els + 1))
    with (1 + Z.of_nat (List.length els) + 1) by lia.
  rewrite xrange_snoc by lia. do 2 f_equal. lia.
Qed.

Lemma volume_then_boundary_hex els el :
  Forall is_hexahedron els -> is_hexahedron el -> Forall is_hexahedron (els ++ [el]).
Proof. intros H Hel. apply Forall_app. auto. Qed.

Lemma volume_then_boundary_quad els el :
  volume_then_boundary els -> is_quadrilateral el ->
  volume_then_boundary (els ++ [el]).
Proof.
  intros (vol & bnd & -> & Hv & Hb) Hel.
  exists vol, (bnd ++ [el]). rewrite app_assoc.
  repeat split; auto. apply Forall_app. auto.
Qed.

Section Steps.

Context {coord : Type}.
Variables (K : list element -> Prop) (G : list group -> Prop).

Lemma get_next_element_id_step :
  hoare (assembling (coord := coord) K G) get_next_element_id
        (pending K G) (aborted K G).
Proof.
  intros s (Hd & Hc & HK & HG). unfold get_next_element_id.
  cbn [ok]. unfold pending. cbn [elements groups element_id].
  repeat split; auto. lia.
Qed.

Lemma lift_step {A} (r : result A) id :
  hoare (pending (coord := coord) K G id) (lift r)
        (fun _ => pending K G id) (aborted K G).
Proof.
  apply hoare_lift; [auto|].
  intros e s _ (Hd & _ & HK & HG). repeat split; auto.
Qed.

Lemma append_element_step el id :
  el_id el = id -> (forall els, K els -> K (els ++ [el])) ->
  hoare (pending (coord := coord) K G id) (append_element el)
        (fun _ => assembling K G) (aborted K G).
Proof.
  intros Hid Hkeep s (Hd & Hc & HK & HG). unfold append_element.
  cbn [ok]. unfold assembling. cbn [elements groups element_id].
  repeat split; auto.
  - apply ids_dense_snoc; [assumption|lia].
  - rewrite length_app. simpl. lia.
Qed.

Lemma append_node_step n :
  hoare (assembling (coord := coord) K G) (append_node n)
        (fun _ => assembling K G) (aborted K G).
Proof. intros s H. exact H. Qed.

(** The volume element generator keeps the invariant when [K] admits one
    more hexahedron. *)
Lemma consume_block_step (f : P3DfmtFile coord) blkn :
  (forall els el, K els -> is_hexahedron el -> K (els ++ [el])) ->
  hoare (assembling K G) (_consume_block f blkn)
        (fun _ => assembling K G) (aborted K G).
Proof.
  intros Hkeep. unfold _consume_block.
  eapply hoare_bind with (Q := fun _ => assembling K G).
  { apply hoare_lift; [auto|].
    intros e s _ (Hd & _ & HK & HG). repeat split; auto. }
  intros blk. destruct (shape blk) as [[idim jdim] kdim].
  eapply hoare_bind with (Q := fun _ => assembling K G).
  { apply hoare_for. intros i _. apply hoare_for. intros j _.
    apply hoare_for. intros k _.
    eapply hoare_bind with (Q := fun _ => assembling K G).
    - apply hoare_lift; [auto|].
      intros e s _ (Hd & _ & HK & HG). repeat split; auto.
    - intros node_id. apply append_node_step. }
  intros [].
  apply hoare_for. intros j _. apply hoare_for. intros k _.
  eapply hoare_bind; [apply get_next_element_id_step|]. intros el_id.
  eapply hoare_bind; [apply lift_step|]. intros ns.
  apply append_element_step; [reflexivity|].
  intros els HK. apply Hkeep; [assumption|reflexivity].
Qed.

(** One quadrilateral keeps the invariant when [K] admits it. *)
Lemma emit_quad_step (f : P3DfmtFile coord) blkn gid p1 p2 p3 p4 :
  (forall els el, K els -> is_quadrilateral el -> K (els ++ [el])) ->
  hoare (assembling K G) (emit_quad f blkn gid p1 p2 p3 p4)
        (fun _ => assembling K G) (aborted K G).
Proof.
  intros Hkeep. unfold emit_quad.
  eapply hoare_bind; [apply get_next_element_id_step|]. intros el_id.
  do 4 (eapply hoare_bind; [apply lift_step|]; intros ?).
  apply append_element_step; [reflexivity|].
  intros els HK. apply Hkeep; [assumption|reflexivity].
Qed.

Lemma quad_loops_step (f : P3DfmtFile coord) blkn gid (l2 l1 : list Z)
    (P1 P2 P3 P4 : Z -> Z -> Z * Z * Z) :
  (forall els el, K els -> is_quadrilateral el -> K (els ++ [el])) ->
  hoare (assembling K G)
        (for_ l2 (fun v2 => for_ l1 (fun v1 =>
           emit_quad f blkn gid (P1 v1 v2) (P2 v1 v2) (P3 v1 v2) (P4 v1 v2))))
        (fun _ => assembling K G) (aborted K G).
Proof.
  intros Hkeep. apply hoare_for. intros v2 _. apply hoare_for. intros v1 _.
  now apply emit_quad_step.
Qed.

End Steps.

Lemma fold_max_xrange (k : nat) : forall a,
  fold_left Z.max (xrange (a + 1) (a + 1 + Z.of_nat k)) a = a + Z.of_nat k.
Proof.
  induction k as [|k IH]; intros a.
  - rewrite xrange_nil by lia. simpl. lia.
  - rewrite xrange_cons by lia. cbn [fold_left].
    replace (Z.max a (a + 1)) with (a + 1) by lia.
    replace (a + 1 + Z.of_nat (S k)) with (a + 1 + 1 + Z.of_nat k) by lia.
    rewrite IH. lia.
Qed.

Lemma max_group_id (gs : list group) g :
  group_id (fold_left (fun best g' =>
                         if group_id best <? group_id g' then g' else best) gs g)
  = fold_left Z.max (map group_id gs) (group_id g).
Proof.
  revert g. induction gs as [|g' gs IH]; intros g; [reflexivity|].
  cbn [fold_left map]. rewrite IH. f_equal.
  destruct (Z.ltb_spec (group_id g) (group_id g')); lia.
Qed.

Lemma max_group_dense (gs : list group) :
  gs <> [] -> group_ids_dense gs ->
  exists g, max_group gs = ok g /\ group_id g = Z.of_nat (List.length gs).
Proof.
  intros Hne Hd. destruct gs as [|g0 gs]; [contradiction|].
  eexists. split; [reflexivity|].
  rewrite max_group_id. unfold group_ids_dense in Hd.
  cbn [map List.length] in Hd. rewrite xrange_cons in Hd by lia.
  replace (1 + Z.of_nat (S (List.length gs)))
    with (1 + 1 + Z.of_nat (List.length gs)) in Hd by lia.
  pose proof (f_equal (hd 0) Hd) as H0. pose proof (f_equal (@tl Z) Hd) as Hrest.
  cbn [hd tl] in H0, Hrest. rewrite H0, Hrest.
  rewrite fold_max_xrange. cbn [List.length]. lia.
Qed.

Lemma mesh_group_first_snoc (gs : list group) name :
  mesh_group_first gs ->
  mesh_group_first (gs ++ [(2, Z.of_nat (List.length gs) + 1, name)]).
Proof.
  intros (surf & -> & Hdim & Hd).
  exists (surf ++ [(2, Z.of_nat (List.length ((3, 1, "mesh"%string) :: surf)) + 1, name)]).
  split; [reflexivity|]. split.
  - apply Forall_app. split; [assumption|]. constructor; [reflexivity|constructor].
  - unfold group_ids_dense in *. rewrite map_app, length_app, Hd.
    cbn [map List.length group_id fst snd].
    match goal with
    | |- xrange 1 (1 + ?x) ++ [?y] = xrange 1 ?z =>
        replace y with (1 + x) by lia; replace z with (1 + x + 1) by lia
    end.
    now rewrite xrange_snoc by lia.
Qed.

Section GroupSteps.

Context {coord : Type}.

Lemma lift_keeps {A} (r : result A) (P : GmshFile coord -> Prop) E :
  (forall e s, P s -> E e s) -> hoare P (lift r) (fun _ => P) E.
Proof. intros H. apply hoare_lift; auto. Qed.

Lemma gen_boundary_step (f : P3DfmtFile coord) b n :
  hoare (assembling volume_then_boundary (groups_after n))
        (_gen_boundary f b)
        (fun _ => assembling volume_then_boundary (groups_after (S n)))
        (aborted volume_then_boundary mesh_group_first).
Proof.
  assert (Hab : forall m e (s : GmshFile coord),
             assembling volume_then_boundary (groups_after m) s ->
             aborted volume_then_boundary mesh_group_first e s).
  { intros m e s (Hd & _ & HK & HG & _). repeat split; auto. }
  unfold _gen_boundary.
  eapply hoare_bind with
    (Q := fun gid s => assembling volume_then_boundary (groups_after n) s /\
                       gid = Z.of_nat (List.length (groups s)) + 1).
  { intros s Hs. unfold _next_group_id.
    destruct Hs as (Hd & Hc & HK & HG & Hlen).
    destruct (@max_group_dense (groups s)) as (g & Hmax & Hg).
    - intros Hnil. rewrite Hnil in Hlen. discriminate.
    - now destruct HG as (surf & _ & _ & HG).
    - rewrite Hmax. cbn [rbind ok]. split; [|lia].
      repeat split; auto. }
  intros gid.
  eapply hoare_bind with
    (Q := fun _ => assembling volume_then_boundary (groups_after (S n))).
  { intros s ((Hd & Hc & HK & HG & Hlen) & ->). unfold append_group.
    cbn [ok]. unfold assembling. cbn [elements element_id groups].
    repeat split; auto.
    - now apply mesh_group_first_snoc.
    - rewrite length_app, Hlen. simpl. lia. }
  intros [].
  eapply hoare_bind; [apply lift_keeps, Hab|]. intros b1.
  eapply hoare_bind; [apply lift_keeps, Hab|]. intros blk.
  destruct (shape blk) as [[di dj] dk].
  eapply hoare_bind; [apply lift_keeps, Hab|]. intros [[[s1 e1] s2] e2].
  eapply hoare_bind; [apply lift_keeps, Hab|]. intros face.
  assert (Hloops : forall l2 l1 (P1 P2 P3 P4 : Z -> Z -> Z * Z * Z),
    hoare (assembling volume_then_boundary (groups_after (S n)))
      (for_ l2 (fun v2 => for_ l1 (fun v1 =>
         emit_quad f (b1 - 1) gid (P1 v1 v2) (P2 v1 v2) (P3 v1 v2) (P4 v1 v2))))
      (fun _ => assembling volume_then_boundary (groups_after (S n)))
      (aborted volume_then_boundary mesh_group_first)).
  { intros l2 l1 P1 P2 P3 P4.
    eapply hoare_weaken.
    - apply quad_loops_step with (G := groups_after (S n)).
      apply volume_then_boundary_quad.
    - auto.
    - auto.
    - intros e s (Hd & HK & HG & _). repeat split; auto. }
  destruct (face =? 1); [apply Hloops|].
  destruct (face =? 2); [apply Hloops|].
  destruct (face =? 3); [apply Hloops|].
  destruct (face =? 4); [apply Hloops|].
  destruct (face =? 5); [apply Hloops|].
  destruct (face =? 6); [apply Hloops|].
  apply hoare_lift; [discriminate|]. intros e s _ Hs. eapply Hab, Hs.
Qed.

End GroupSteps.

Section Conversion.

Context {coord : Type}.

Lemma only_mesh_group_first gs : only_mesh_group gs -> groups_after 0 gs.
Proof.
  intros ->. split; [|reflexivity].
  exists []. repeat split. constructor.
Qed.

Lemma hexahedra_volume_then_boundary els :
  Forall is_hexahedron els -> volume_then_boundary els.
Proof.
  intros H. exists els, []. rewrite app_nil_r. repeat split; auto.
Qed.

(** What a whole conversion leaves, whether it returns or raises. *)
Lemma consume_outcome (f : P3DfmtFile coord) mapfile :
  hoare (fun s => s = GmshFile_new) (consume f mapfile)
        (fun _ s =>
           exists bs, mapfile = Some bs /\
             assembling volume_then_boundary (groups_after (List.length bs)) s)
        (aborted volume_then_boundary mesh_group_first).
Proof.
  assert (Hab : forall e (s : GmshFile coord),
             assembling (Forall is_hexahedron) only_mesh_group s ->
             aborted volume_then_boundary mesh_group_first e s).
  { intros e s (Hd & _ & HK & HG). repeat split; auto.
    - now apply hexahedra_volume_then_boundary.
    - now apply only_mesh_group_first in HG as [HG _]. }
  unfold consume.
  eapply hoare_bind with
    (Q := fun _ => assembling (Forall is_hexahedron) only_mesh_group).
  { intros s ->. cbn. repeat split; constructor. }
  intros [].
  eapply hoare_bind with
    (Q := fun _ => assembling (Forall is_hexahedron) only_mesh_group).
  { eapply hoare_weaken with (E := aborted (Forall is_hexahedron) only_mesh_group).
    - apply hoare_for. intros blkn _.
      apply consume_block_step. apply volume_then_boundary_hex.
    - auto.
    - auto.
    - intros e s (Hd & HK & HG). repeat split; auto.
      + now apply hexahedra_volume_then_boundary.
      + now apply only_mesh_group_first in HG as [HG _]. }
  intros [].
  destruct mapfile as [bs|].
  - eapply hoare_weaken.
    + apply (@hoare_for_prefix _ _ bs (fun b => _gen_boundary f b)
               (fun pre => assembling volume_then_boundary
                             (groups_after (List.length pre)))
               (aborted volume_then_boundary mesh_group_first)).
      intros pre b post _.
      eapply hoare_weaken;
        [apply gen_boundary_step with (n := List.length pre) | auto | | auto].
      intros [] s Hs. rewrite length_app, Nat.add_1_r. exact Hs.
    + intros s (Hd & Hc & HK & HG).
      split; [assumption|]. split; [assumption|].
      split; [now apply hexahedra_volume_then_boundary
             |now apply only_mesh_group_first].
    + intros [] s Hs. exists bs. auto.
    + auto.
  - apply hoare_lift; [discriminate|]. intros e s _ Hs. now apply Hab.
Qed.

End Conversion.

(** ** A conversion that returns *)

Lemma group_ids_dense_snoc (gs : list group) (g : group) :
  group_ids_dense gs -> group_id g = Z.of_nat (List.length gs) + 1 ->
  group_ids_dense (gs ++ [g]).
Proof.
  unfold group_ids_dense. intros H Hg.
  rewrite map_app, length_app, H. cbn [map List.length]. rewrite Hg.
  match goal with
  | |- xrange 1 (1 + ?x) ++ [?y] = xrange 1 ?z =>
      replace y with (1 + x) by lia; replace z with (1 + x + 1) by lia
  end.
  now rewrite xrange_snoc by lia.
Qed.

Section Returning.

Context {coord : Type}.
Implicit Types (f : P3DfmtFile coord).

Lemma blocks_run f (s : GmshFile coord) :
  nblocks f = Z.of_nat (List.length (coords f)) ->
  for_ (xrange 0 (nblocks f)) (fun blkn => _consume_block f blkn) s =
  (ok tt,
   extend (flat_map (nodes_of_block f) (xrange 0 (nblocks f)))
          (flat_map (hexahedra_of_block f) (xrange 0 (nblocks f))) [] s).
Proof.
  intros Hsz.
  rewrite (for_extends _ _ (nodes_of_block f) (hexahedra_of_block f)
                       (fun _ => [])).
  - now rewrite flat_map_nil.
  - intros blkn s0 Hin. apply in_xrange in Hin.
    unfold nodes_of_block, hexahedra_of_block.
    destruct (nth_error (coords f) (Z.to_nat blkn)) as [blk|] eqn:Hblk.
    + apply consume_block_run; [assumption|lia|assumption].
    + apply nth_error_None in Hblk. lia.
Qed.

Lemma records_run f bs : forall (s : GmshFile coord),
  nblocks f = Z.of_nat (List.length (coords f)) ->
  Forall (record_ok f) bs ->
  groups s <> [] -> group_ids_dense (groups s) ->
  let gid := Z.of_nat (List.length (groups s)) + 1 in
  for_ bs (fun b => _gen_boundary f b) s =
  (ok tt, extend [] (quads_of_records f bs gid) (groups_of_records bs gid) s).
Proof.
  induction bs as [|b bs IH]; intros s Hsz Hok Hne Hd gid.
  - cbn. unfold ret. now rewrite extend_nil.
  - inversion Hok as [|? ? Hb Hbs]; subst.
    destruct Hb as (blkno & face & s1 & e1 & s2 & e2 & blk
                    & Hints & Hno & Hblk & Hface).
    destruct (max_group_dense Hne Hd) as (g & Hmax & Hg).
    cbn [for_]. unfold bind.
    rewrite (@gen_boundary_run _ f b s g blkno face s1 e1 s2 e2 blk
               Hsz Hmax Hints Hno Hblk).
    destruct (face_table face) as [row|] eqn:Hrow.
    2:{ apply face_table_None in Hrow. contradiction. }
    cbn [ok]. rewrite Hg. fold gid.
    rewrite IH; try assumption.
    + rewrite extend_extend. cbn [app extend groups].
      rewrite length_app. cbn [List.length].
      replace (Z.of_nat (List.length (groups s) + 1) + 1) with (gid + 1)
        by (unfold gid; lia).
      cbn [quads_of_records groups_of_records]. unfold quads_of_record.
      rewrite Hints, Hblk, Hrow. reflexivity.
    + cbn [extend groups]. intros Hnil. now apply app_eq_nil in Hnil as [_ Hnil].
    + cbn [extend groups]. apply group_ids_dense_snoc; [assumption|].
      reflexivity.
Qed.

(** On a loaded grid and records of the data model, [consume] on a new
    [GmshFile] returns: the nodes and the hexahedra of the blocks in block
    order, then the quadrilaterals and the groups of the records in record
    order, group ids from 2 on. *)
Lemma consume_run f bs :
  nblocks f = Z.of_nat (List.length (coords f)) ->
  Forall (record_ok f) bs ->
  consume f (Some bs) GmshFile_new =
  (ok tt,
   extend (flat_map (nodes_of_block f) (xrange 0 (nblocks f)))
          (flat_map (hexahedra_of_block f) (xrange 0 (nblocks f))
           ++ quads_of_records f bs 2)
          ((3, 1, "mesh"%string) :: groups_of_records bs 2)
          GmshFile_new).
Proof.
  intros Hsz Hok. unfold consume.
  unfold bind at 1. rewrite append_group_run. cbn [ok].
  unfold bind at 1. rewrite blocks_run by assumption. cbn [ok].
  rewrite records_run; try assumption.
  - rewrite !extend_extend. cbn [extend groups GmshFile_new app List.length].
    rewrite !app_nil_r. reflexivity.
  - cbn. discriminate.
  - cbn. reflexivity.
Qed.

End Returning.

Lemma xrange_split_lt a b l1 x l2 :
  xrange a b = l1 ++ x :: l2 -> Forall (fun y => y < x) l1.
Proof.
  revert a. induction l1 as [|y l1 IH]; intros a H; [constructor|].
  destruct (Z.lt_ge_cases a b) as [Hlt|Hge].
  2:{ rewrite xrange_nil in H by lia. discriminate. }
  rewrite xrange_cons in H by assumption. cbn [app] in H.
  pose proof (f_equal (hd 0) H) as Hhd. pose proof (f_equal (@tl Z) H) as Htl.
  cbn [hd tl] in Hhd, Htl. subst y. constructor.
  - assert (Hx : In x (xrange (a + 1) b)) by (rewrite Htl; apply in_elt).
    apply in_xrange in Hx. lia.
  - eapply IH, Htl.
Qed.

Section ConversionClaims.

Context {coord : Type}.

(** C5: whatever a conversion does, the element ids of the mesh it leaves
    are 1, 2, ... in list order, without a gap, the hexahedra of the volume
    coming before the quadrilaterals of the boundaries; and a conversion of
    a loaded grid with records of the data model, their range bounds
    accepted by [xrange] (they fit a C long), returns with the
    hexahedra of the blocks in block order followed by the quadrilaterals
    of the records in record order, numbered from 1. *)
Theorem element_ids_gap_free :
  (forall (f : P3DfmtFile coord) mapfile,
     let s' := snd (consume f mapfile GmshFile_new) in
     map el_id (elements s')
       = xrange 1 (1 + Z.of_nat (List.length (elements s'))) /\
     exists vol bnd,
       elements s' = vol ++ bnd /\
       Forall is_hexahedron vol /\ Forall is_quadrilateral bnd) /\
  (forall (f : P3DfmtFile coord) bs,
     nblocks f = Z.of_nat (List.length (coords f)) ->
     Forall (record_ok f) bs ->
     Forall record_ranges_fit bs ->
     let r := consume f (Some bs) GmshFile_new in
     fst r = ok tt /\
     elements (snd r)
       = with_ids 1 (flat_map (hexahedra_of_block f) (xrange 0 (nblocks f))
                     ++ quads_of_records f bs 2) /\
     element_id (snd r) = Z.of_nat (List.length (elements (snd r)))).
Proof.
  split.
  - intros f mapfile s'.
    pose proof (@consume_outcome _ f mapfile GmshFile_new eq_refl) as H.
    subst s'. destruct (consume f mapfile GmshFile_new) as [[e|u] s'].
    + destruct H as (Hd & HK & _). cbn [snd]. split; assumption.
    + destruct H as (bs & _ & Hd & _ & HK & _). cbn [snd]. split; assumption.
  - intros f bs Hsz Hok _ r. subst r. rewrite consume_run by assumption.
    cbn [fst snd extend elements element_id GmshFile_new app].
    repeat split. rewrite with_ids_length. lia.
Qed.

(** C6: whatever a conversion does, the groups it leaves start with the
    volume group [(3, 1, "mesh")], the only group of dimension 3, and have
    the ids 1, 2, ... in order, so that every group's id exceeds the ids of
    all groups allocated before it; a conversion that returns has allocated
    one surface group per record, and on a loaded grid with records of the
    data model, their range bounds accepted by [xrange] (they fit a C
    long), it returns with the records' groups numbered from 2. *)
Theorem group_ids_ascending :
  (forall (f : P3DfmtFile coord) mapfile,
     let s' := snd (consume f mapfile GmshFile_new) in
     (exists surf,
        groups s' = (3, 1, "mesh"%string) :: surf /\
        Forall (fun g => group_dim g = 2) surf) /\
     map group_id (groups s')
       = xrange 1 (1 + Z.of_nat (List.length (groups s'))) /\
     (forall before g after,
        groups s' = before ++ g :: after ->
        Forall (fun g' => group_id g' < group_id g) before)) /\
  (forall (f : P3DfmtFile coord) bs,
     fst (consume f (Some bs) GmshFile_new) = ok tt ->
     List.length (groups (snd (consume f (Some bs) GmshFile_new)))
       = S (List.length bs)) /\
  (forall (f : P3DfmtFile coord) bs,
     nblocks f = Z.of_nat (List.length (coords f)) ->
     Forall (record_ok f) bs ->
     Forall record_ranges_fit bs ->
     fst (consume f (Some bs) GmshFile_new) = ok tt /\
     groups (snd (consume f (Some bs) GmshFile_new))
       = (3, 1, "mesh"%string) :: groups_of_records bs 2).
Proof.
  split; [|split].
  - intros f mapfile s'.
    assert (HG : mesh_group_first (groups s')).
    { pose proof (@consume_outcome _ f mapfile GmshFile_new eq_refl) as H.
      subst s'. destruct (consume f mapfile GmshFile_new) as [[e|u] s'].
      - now destruct H as (_ & _ & HG).
      - now destruct H as (bs & _ & _ & _ & _ & HG & _). }
    destruct HG as (surf & Hgs & Hdim & Hd).
    split; [exists surf; auto|]. split; [exact Hd|].
    intros before g after Hsplit. unfold group_ids_dense in Hd.
    rewrite Hsplit, map_app in Hd. cbn [map] in Hd. symmetry in Hd.
    apply xrange_split_lt in Hd. rewrite Forall_map in Hd. exact Hd.
  - intros f bs Hret.
    pose proof (@consume_outcome _ f (Some bs) GmshFile_new eq_refl) as H.
    destruct (consume f (Some bs) GmshFile_new) as [[e|u] s']; [discriminate|].
    destruct H as (bs' & Hbs & _ & _ & _ & _ & Hlen).
    inversion Hbs; subst bs'. exact Hlen.
  - intros f bs Hsz Hok _. rewrite consume_run by assumption.
    split; reflexivity.
Qed.

End ConversionClaims.

(** ** The reader of the neutral map file *)

Lemma read_boundaries_app fp1 : forall fp2 acc,
  read_boundaries (fp1 ++ fp2) acc =
  (bs <~ read_boundaries fp1 acc ;; read_boundaries fp2 bs).
Proof.
  induction fp1 as [|l fp1 IH]; intros fp2 acc; [reflexivity|].
  cbn [app read_boundaries].
  destruct (boundary_of_line l) as [e|r]; [reflexivity|].
  cbn [rbind]. apply IH.
Qed.

Lemma read_boundaries_traverse fp : forall acc,
  read_boundaries fp acc =
  (rs <~ map_result boundary_of_line fp ;; ok (acc ++ flat_map records_of rs)).
Proof.
  induction fp as [|l fp IH]; intros acc.
  - cbn. now rewrite app_nil_r.
  - cbn [read_boundaries map_result].
    destruct (boundary_of_line l) as [e|r]; [reflexivity|].
    cbn [rbind]. rewrite IH.
    destruct (map_result boundary_of_line fp) as [e|rs]; [reflexivity|].
    cbn [rbind ok flat_map]. f_equal.
    destruct r; cbn [records_of]; [now rewrite <- app_assoc|reflexivity].
Qed.

Lemma marked_line_skipped l :
  line_label l = Some connectivity_marker -> boundary_of_line l = ok None.
Proof.
  unfold line_label, boundary_of_line.
  destruct (line_tokens l) as [|b0 rest]; [discriminate|].
  intros H. inversion H as [Hb0]. rewrite Hb0.
  now rewrite String.eqb_refl.
Qed.

Lemma boundary_of_line_label l b :
  boundary_of_line l = ok (Some b) -> label b <> connectivity_marker.
Proof.
  unfold boundary_of_line.
  destruct (line_tokens l) as [|b0 rest]; [discriminate|].
  destruct (String.eqb_spec (py_slice b0 1 (-1)) connectivity_marker) as [|Hne];
    [discriminate|].
  destruct (map_result py_int (firstn 6 rest)) as [e|ns]; [discriminate|].
  cbn [rbind ok]. intros H. inversion H. exact Hne.
Qed.

Lemma read_boundaries_labels fp : forall acc bs,
  Forall (fun b => label b <> connectivity_marker) acc ->
  read_boundaries fp acc = ok bs ->
  Forall (fun b => label b <> connectivity_marker) bs.
Proof.
  induction fp as [|l fp IH]; intros acc bs Hacc H.
  - cbn in H. inversion H. now subst.
  - cbn [read_boundaries] in H.
    destruct (boundary_of_line l) as [e|r] eqn:Hl; [discriminate|].
    cbn [rbind] in H. eapply IH; [|exact H].
    destruct r as [b|]; [|assumption].
    apply Forall_app. split; [assumption|].
    constructor; [|constructor]. eapply boundary_of_line_label, Hl.
Qed.

Lemma marked_line_dropped fp1 l fp2 acc :
  line_label l = Some connectivity_marker ->
  read_boundaries (fp1 ++ l :: fp2) acc = read_boundaries (fp1 ++ fp2) acc.
Proof.
  intros Hl. rewrite !read_boundaries_app.
  destruct (read_boundaries fp1 acc) as [e|bs]; [reflexivity|].
  cbn [rbind read_boundaries]. now rewrite (marked_line_skipped _ Hl).
Qed.

(** C8: a record line whose label is the connectivity marker
    ["one-to-one"] adds no record when the file is loaded: no loaded record
    carries that label, and a file with such a line in its record section
    loads, and converts, as the file without the line; the line adds no
    element and no group to the mesh. *)
Theorem connectivity_records_discarded :
  (forall l, line_label l = Some connectivity_marker ->
     boundary_of_line l = ok None) /\
  (forall file bs, NeutralMapFile file = ok bs ->
     Forall (fun b => label b <> connectivity_marker) bs) /\
  (forall text text' fp1 l fp2,
     line_label l = Some connectivity_marker ->
     skip_header (readlines text) = ok (fp1 ++ l :: fp2) ->
     skip_header (readlines text') = ok (fp1 ++ fp2) ->
     NeutralMapFile (Some text) = NeutralMapFile (Some text') /\
     forall coord (p3d : P3DfmtFile coord),
       convert p3d text = convert p3d text').
Proof.
  split; [exact marked_line_skipped|]. split.
  - intros [text|] bs H.
    + unfold NeutralMapFile in H.
      destruct (skip_header (readlines text)) as [e|fp]; [discriminate|].
      cbn [rbind] in H. eapply read_boundaries_labels; [constructor|exact H].
    + inversion H. constructor.
  - intros text text' fp1 l fp2 Hl Ht Ht'.
    assert (Heq : NeutralMapFile (Some text) = NeutralMapFile (Some text')).
    { unfold NeutralMapFile. rewrite Ht, Ht'. cbn [rbind ok].
      now apply marked_line_dropped. }
    split; [exact Heq|]. intros coord p3d. unfold convert. now rewrite Heq.
Qed.

(** C9, as the reader has it: every line of the record section is parsed
    on its own, no line is joined with the line after it: the records read
    from a sequence of lines are the records of its lines, one after the
    other, and the first line that does not parse stops the reading. *)
Theorem record_lines_parsed_separately :
  (forall fp acc,
     read_boundaries fp acc =
     (rs <~ map_result boundary_of_line fp ;;
      ok (acc ++ flat_map records_of rs))) /\
  (forall fp1 fp2 acc,
     read_boundaries (fp1 ++ fp2) acc =
     (bs <~ read_boundaries fp1 acc ;; read_boundaries fp2 bs)).
Proof.
  split.
  - intros fp acc. apply read_boundaries_traverse.
  - intros fp1 fp2 acc. apply read_boundaries_app.
Qed.

(** ** The properties on the sample inputs *)

Lemma two_blocks_loaded : loaded two_blocks.
Proof.
  split; [reflexivity|].
  repeat constructor; unfold shape_ok; simpl; lia.
Qed.

(** The id of grid point (1, 1, 1) of the second of the two blocks: 12
    nodes before it, and position 1 + 3 * 1 + 3 * 2 * 1 in its block. *)
Lemma p3d_node_id_formula_witness :
  (0 <= 1 < nblocks two_blocks /\ in_bounds (box (3, 2, 3)) 1 1 1) /\
  _p3d_node_id two_blocks 1 1 1 1 = ok 23.
Proof.
  split.
  - unfold in_bounds. simpl. lia.
  - apply (@p3d_node_id_formula Z two_blocks 1 (box (3, 2, 3)) 3 2 3 1 1 1).
    + reflexivity.
    + simpl. lia.
    + reflexivity.
    + reflexivity.
    + unfold in_bounds. simpl. lia.
Defined.

(** The second of the two blocks has the ids 13 to 30. *)
Lemma node_numbering_block_contiguous_witness :
  loaded two_blocks /\
  node_ids two_blocks 1 (block_points (box (3, 2, 3))) = ok (xrange 13 31).
Proof.
  split; [exact two_blocks_loaded|].
  destruct (@node_numbering_block_contiguous Z two_blocks two_blocks_loaded)
    as [Hblock _].
  destruct (Hblock 1 (box (3, 2, 3))) as (_ & Hids & _).
  - lia.
  - reflexivity.
  - exact Hids.
Defined.

(** A block of extents (3, 2, 3) gives (2 - 1) * (3 - 1) = 2 hexahedra. *)
Lemma consume_block_hexahedra_witness :
  (1 <= 2 /\ 1 <= 3) /\
  exists s',
    _consume_block two_blocks 1 GmshFile_new = (ok tt, s') /\
    Z.of_nat (List.length (hex_cells (box (3, 2, 3)))) = (2 - 1) * (3 - 1) /\
    element_id s' = 2.
Proof.
  split; [lia|].
  destruct (@consume_block_hexahedra Z two_blocks 1 (box (3, 2, 3)) 3 2 3
              GmshFile_new)
    as (s' & Hrun & _ & Hlen & _ & _ & _ & Hid).
  - reflexivity.
  - lia.
  - reflexivity.
  - reflexivity.
  - lia.
  - lia.
  - exists s'. split; [exact Hrun|]. split; [exact Hlen|exact Hid].
Defined.

(** Face 5 with ranges (1, 3) and (1, 2): the first range sweeps [k] over
    0 and 1, the second [i] over 0. *)
Lemma gen_boundary_quadrilaterals_witness :
  (max_group (groups mesh_only) = ok (3, 1, "mesh"%string) /\
   face_table 5 = Some (mkRow AxisJ false (AxisI, AxisK)) /\
   ranges_fit_long 1 3 1 2) /\
  emitted_quads one_block wall5 mesh_only = [[1; 7; 8; 2]; [2; 8; 9; 3]] /\
  swept_cells 5 1 3 1 2 = [(0, 0); (0, 1)].
Proof.
  assert (Hfit : ranges_fit_long 1 3 1 2)
    by (unfold ranges_fit_long, fits_xrange, fits_long, long_max; lia).
  split; [split; [reflexivity|split; [reflexivity|exact Hfit]]|].
  destruct (@gen_boundary_quadrilaterals Z one_block wall5 mesh_only
              (3, 1, "mesh"%string) 1 5 1 3 1 2 (box (3, 2, 3))
              (mkRow AxisJ false (AxisI, AxisK)))
    as (Hrun & _).
  - reflexivity.
  - reflexivity.
  - reflexivity.
  - lia.
  - reflexivity.
  - reflexivity.
  - exact Hfit.
  - split; [|reflexivity].
    unfold emitted_quads. rewrite Hrun. reflexivity.
Defined.

(** C4 as worded fails on that record: the quadrilateral on the points
    (0,0,1), (1,0,1), (1,0,2), (0,0,2) is emitted, and is none of those of
    the cells with the first range along [i] and the second along [k]. *)
Lemma tabulated_order_fails_on_face_5 :
  ~ (forall q, In q (emitted_quads one_block wall5 mesh_only) <->
               In q (tabulated_quads one_block wall5)).
Proof.
  intros H. assert (Hin : In [2; 8; 9; 3] (tabulated_quads one_block wall5)).
  { apply H. right. left. reflexivity. }
  destruct Hin as [Hq | [Hq | []]]; discriminate Hq.
Qed.

Lemma sample_records_ok : Forall (record_ok one_block) [wall5; wall1].
Proof.
  repeat constructor; unfold record_ok.
  - exists 1, 5, 1, 3, 1, 2, (box (3, 2, 3)). repeat split; try reflexivity; lia.
  - exists 1, 1, 1, 2, 1, 2, (box (3, 2, 3)). repeat split; try reflexivity; lia.
Qed.

Lemma sample_records_fit : Forall record_ranges_fit [wall5; wall1].
Proof.
  repeat constructor;
    unfold record_ranges_fit, ranges_fit_long, fits_xrange, fits_long, long_max;
    cbn [wall5 wall1 ints skipn]; lia.
Qed.

(** One block and two records: two hexahedra, then two and one
    quadrilaterals, ids 1 to 5. *)
Lemma element_ids_gap_free_witness :
  (Forall (record_ok one_block) [wall5; wall1] /\
   Forall record_ranges_fit [wall5; wall1]) /\
  (let r := consume one_block (Some [wall5; wall1]) GmshFile_new in
   fst r = ok tt /\
   map el_id (elements (snd r)) = [1; 2; 3; 4; 5] /\
   map el_type (elements (snd r)) = [5; 5; 3; 3; 3]).
Proof.
  split; [split; [exact sample_records_ok|exact sample_records_fit]|].
  destruct (@element_ids_gap_free Z) as [_ Hret].
  destruct (Hret one_block [wall5; wall1] eq_refl sample_records_ok
              sample_records_fit)
    as (Hok & Hels & _).
  split; [exact Hok|]. rewrite Hels. split; reflexivity.
Defined.

(** The groups of that conversion: "mesh" with id 1, then ids 2 and 3. *)
Lemma group_ids_ascending_witness :
  (fst (consume one_block (Some [wall5; wall1]) GmshFile_new) = ok tt /\
   Forall (record_ok one_block) [wall5; wall1] /\
   Forall record_ranges_fit [wall5; wall1]) /\
  groups (snd (consume one_block (Some [wall5; wall1]) GmshFile_new))
  = [(3, 1, "mesh"%string); (2, 2, "b2-wall"%string); (2, 3, "b3-inlet"%string)] /\
  List.length (groups (snd (consume one_block (Some [wall5; wall1]) GmshFile_new)))
  = 3%nat.
Proof.
  split;
    [split; [reflexivity|split; [exact sample_records_ok|exact sample_records_fit]]|].
  destruct (@group_ids_ascending Z) as (_ & Hcount & Hret).
  split.
  - destruct (Hret one_block [wall5; wall1] eq_refl sample_records_ok
                sample_records_fit) as [_ Hgroups].
    rewrite Hgroups. reflexivity.
  - apply (Hcount one_block [wall5; wall1]). reflexivity.
Defined.

(** Face 7 raises the unknown-face error, face 5 does not. *)
Lemma gen_boundary_invalid_face_witness :
  (max_group (groups mesh_only) = ok (3, 1, "mesh"%string) /\
   ~ (1 <= 7 <= 6) /\ 1 <= 5 <= 6) /\
  fst (_gen_boundary one_block wall7 mesh_only) = inl unknown_face /\
  fst (_gen_boundary one_block wall5 mesh_only) <> inl unknown_face.
Proof.
  split; [split; [reflexivity|lia]|].
  destruct (@gen_boundary_invalid_face Z) as [Hout Hin].
  split.
  - apply (Hout one_block wall7 mesh_only (3, 1, "mesh"%string)
             1 7 1 2 1 2 (box (3, 2, 3))); try reflexivity; lia.
  - apply (Hin one_block wall5 mesh_only 5); [reflexivity|lia].
Defined.

(** Face 7 leaves the group "b2-odd" behind the error. *)
Lemma gen_boundary_group_precedes_face_check_witness :
  (max_group (groups mesh_only) = ok (3, 1, "mesh"%string) /\ ~ (1 <= 7 <= 6)) /\
  _gen_boundary one_block wall7 mesh_only
  = (inl unknown_face,
     mkGmsh 0 [] [] [(3, 1, "mesh"%string); (2, 2, "b2-odd"%string)]) /\
  groups (snd (_gen_boundary one_block wall7 mesh_only))
  = groups mesh_only ++ [(2, 2, "b2-odd"%string)].
Proof.
  split; [split; [reflexivity|lia]|].
  destruct (@gen_boundary_group_precedes_face_check Z) as [Hout Honly].
  destruct (Hout one_block wall7 mesh_only (3, 1, "mesh"%string)
              1 7 1 2 1 2 (box (3, 2, 3))) as (Hfst & Hgroups & _);
    try reflexivity; try lia.
  split; [reflexivity|].
  exact Hgroups.
Defined.

(** The map file with a connectivity record between two boundary records
    loads and converts as the file without it. *)
Lemma connectivity_records_discarded_witness :
  (line_label link_line = Some connectivity_marker /\
   skip_header (readlines map_text) = ok ([wall_line] ++ link_line :: [inlet_line]) /\
   skip_header (readlines map_text_unlinked) = ok ([wall_line] ++ [inlet_line])) /\
  NeutralMapFile (Some map_text) = NeutralMapFile (Some map_text_unlinked) /\
  convert one_block map_text = convert one_block map_text_unlinked /\
  boundary_of_line link_line = ok None.
Proof.
  assert (Hl : line_label link_line = Some connectivity_marker) by reflexivity.
  assert (Ht : skip_header (readlines map_text)
               = ok ([wall_line] ++ link_line :: [inlet_line])) by reflexivity.
  assert (Ht' : skip_header (readlines map_text_unlinked)
                = ok ([wall_line] ++ [inlet_line])) by reflexivity.
  split; [auto|].
  destruct connectivity_records_discarded as (Hskip & _ & Hsame).
  destruct (Hsame map_text map_text_unlinked [wall_line] link_line [inlet_line]
              Hl Ht Ht') as [Hload Hconv].
  split; [exact Hload|]. split; [apply Hconv|]. apply Hskip. exact Hl.
Defined.

(** C9 as worded fails on a record written on two lines: joined, the lines
    give the record; the reader takes the first line alone, finds the
    backslash where an integer should be, and raises. *)
Lemma continuation_not_joined : ~ joined_before_parsing continued_lines.
Proof.
  unfold joined_before_parsing. intros H.
  assert (Hcode : read_boundaries continued_lines []
                  = throw ValueError "invalid literal for int() with base 10")
    by reflexivity.
  assert (Hspec : read_boundaries (join_continuations continued_lines) []
                  = ok [mkBdry "wall" [1; 1; 1; 2; 1; 2]]) by reflexivity.
  rewrite Hcode, Hspec in H. discriminate H.
Qed.

(** * Further properties of the script *)

(** ** Indexing with negative and out-of-range block numbers *)

Lemma py_getitem_neg {A} kind (l : list A) n :
  - Z.of_nat (List.length l) <= n < 0 ->
  py_getitem kind l n =
  match nth_error l (Z.to_nat (n + Z.of_nat (List.length l))) with
  | Some a => ok a
  | None => throw IndexError (kind ++ " index out of range")%string
  end.
Proof.
  intros H. unfold py_getitem.
  destruct (Z.ltb_spec n 0); [|lia].
  destruct (Z.leb_spec 0 (n + Z.of_nat (List.length l))); [reflexivity|lia].
Qed.

Lemma py_getitem_out {A} kind (l : list A) n :
  n < - Z.of_nat (List.length l) \/ Z.of_nat (List.length l) <= n ->
  py_getitem kind l n = throw IndexError (kind ++ " index out of range")%string.
Proof.
  intros H. unfold py_getitem.
  destruct (Z.ltb_spec n 0).
  - destruct (Z.leb_spec 0 (n + Z.of_nat (List.length l))); [lia|reflexivity].
  - destruct (Z.leb_spec 0 n); [|lia].
    destruct (nth_error l (Z.to_nat n)) eqn:Hnth; [|reflexivity].
    assert (Z.to_nat n < List.length l)%nat
      by (apply nth_error_Some; congruence).
    lia.
Qed.

Lemma py_getitem_ok {A} kind (l : list A) n a :
  py_getitem kind l n = ok a ->
  (0 <= n /\ nth_error l (Z.to_nat n) = Some a) \/
  (- Z.of_nat (List.length l) <= n < 0 /\
   nth_error l (Z.to_nat (n + Z.of_nat (List.length l))) = Some a).
Proof.
  unfold py_getitem. intros H.
  destruct (Z.ltb_spec n 0).
  - destruct (Z.leb_spec 0 (n + Z.of_nat (List.length l))); [|discriminate].
    right. split; [lia|].
    destruct (nth_error l _); [unfold ok in H; congruence|discriminate].
  - destruct (Z.leb_spec 0 n); [|discriminate].
    left. split; [assumption|].
    destruct (nth_error l _); [unfold ok in H; congruence|discriminate].
Qed.

Section IndexerEdges.

Context {coord : Type}.
Implicit Types (f : P3DfmtFile coord) (blk : Block coord).

(** A negative block index that the list of blocks accepts: no block is
    summed, and the extents are those of the block counted from the end. *)
Lemma _p3d_node_id_negative f n blk di dj dk i j k :
  nblocks f = Z.of_nat (List.length (coords f)) ->
  - Z.of_nat (List.length (coords f)) <= n < 0 ->
  nth_error (coords f) (Z.to_nat (n + Z.of_nat (List.length (coords f)))) = Some blk ->
  shape blk = (di, dj, dk) ->
  _p3d_node_id f n i j k = ok (1 + k + dk * j + dk * dj * i).
Proof.
  intros Hsz Hn Hblk Hshape. unfold _p3d_node_id.
  destruct (Z.leb_spec (nblocks f) n); [lia|].
  rewrite (xrange_nil (a:=0) (b:=n)) by lia. cbn [sum_sizes].
  assert (Hbase : (if 1 <? nblocks f then ok 1 else ok 1) = ok (A:=Z) 1)
    by (destruct (1 <? nblocks f); reflexivity).
  rewrite Hbase. cbn [rbind ok].
  rewrite py_getitem_neg by assumption. rewrite Hblk. cbn [rbind ok].
  now rewrite Hshape.
Qed.

(** Whenever the list of blocks has an entry at [n], the indexer returns. *)
Lemma _p3d_node_id_returns f n blk i j k :
  nblocks f = Z.of_nat (List.length (coords f)) ->
  py_getitem "list" (coords f) n = ok blk ->
  exists id, _p3d_node_id f n i j k = ok id.
Proof.
  intros Hsz Hget. apply py_getitem_ok in Hget as [[Hn Hblk] | [Hn Hblk]].
  - eexists. now apply _p3d_node_id_run with (blk := blk).
  - destruct (shape blk) as [[di dj] dk] eqn:Hshape.
    eexists. eapply _p3d_node_id_negative; eassumption.
Qed.

(** X1: with one coordinate entry per declared block, the indexer raises
    the block-number error exactly from [nblocks] on; a negative block
    index down to [-nblocks] is not refused: it is numbered from 1, as
    block 0 is, with the extents of the block counted from the end; and
    below [-nblocks], on an index that fits a C long, the list access
    raises. *)
Theorem p3d_node_id_block_index_edges :
  (forall (f : P3DfmtFile coord) n i j k,
     nblocks f = Z.of_nat (List.length (coords f)) ->
     nblocks f <= n ->
     _p3d_node_id f n i j k =
     throw IndexError ("Block number " ++ str_of_int n ++ " is out of range.")%string) /\
  (forall (f : P3DfmtFile coord) n blk di dj dk i j k,
     nblocks f = Z.of_nat (List.length (coords f)) ->
     - nblocks f <= n < 0 ->
     nth_error (coords f) (Z.to_nat (n + nblocks f)) = Some blk ->
     shape blk = (di, dj, dk) ->
     _p3d_node_id f n i j k = ok (1 + k + dk * j + dk * dj * i)) /\
  (forall (f : P3DfmtFile coord) n i j k,
     nblocks f = Z.of_nat (List.length (coords f)) ->
     fits_long n ->
     n < - nblocks f ->
     _p3d_node_id f n i j k = throw IndexError "list index out of range").
Proof.
  split; [|split].
  - intros f n i j k _ Hn. unfold _p3d_node_id.
    destruct (Z.leb_spec (nblocks f) n); [reflexivity|lia].
  - intros f n blk di dj dk i j k Hsz Hn Hblk Hshape.
    rewrite Hsz in Hn, Hblk.
    eapply _p3d_node_id_negative; eassumption.
  - intros f n i j k Hsz _ Hn. unfold _p3d_node_id.
    destruct (Z.leb_spec (nblocks f) n); [lia|].
    rewrite (xrange_nil (a:=0) (b:=n)) by lia. cbn [sum_sizes].
    assert (Hbase : (if 1 <? nblocks f then ok 1 else ok 1) = ok (A:=Z) 1)
      by (destruct (1 <? nblocks f); reflexivity).
    rewrite Hbase. cbn [rbind ok].
    rewrite py_getitem_out by lia. reflexivity.
Qed.

(** X2: on a grid that holds a list of blocks, whatever its block count,
    and for a block index that fits a C long, an exception of the indexer
    is an [IndexError], whatever the point. *)
Theorem p3d_node_id_raises_index_error_only (f : P3DfmtFile coord) n i j k e :
  fits_long n ->
  _p3d_node_id f n i j k = inl e -> exn_cls e = IndexError.
Proof.
  intros _. unfold _p3d_node_id. destruct (nblocks f <=? n).
  - intros H. inversion H. reflexivity.
  - destruct (if 1 <? nblocks f then _ else _) as [e'|basen] eqn:Hbase.
    + intros H. cbn [rbind] in H. inversion H; subst.
      destruct (1 <? nblocks f); [|discriminate].
      eapply sum_sizes_raises, Hbase.
    + cbn [rbind].
      destruct (py_getitem "list" (coords f) n) as [e'|blk] eqn:Hget.
      * intros H. cbn [rbind] in H. inversion H; subst.
        eapply py_getitem_raises, Hget.
      * cbn [rbind]. destruct (shape blk) as [[di dj] dk]. discriminate.
Qed.

(** X3: on a grid that holds a list of blocks the dimension accessors count
    blocks from 1; block number 0 and negative numbers down to [1 - len] are
    not refused but give the extents of a block counted from the end (0 the
    last one); any other number whose index fits a C long raises
    [IndexError]; on a grid constructed without coordinates every number
    raises [TypeError]. *)
Theorem dims_accessors_bounds :
  (forall (cs : list (Block coord)) nblk blk di dj dk,
     1 <= nblk ->
     nth_error cs (Z.to_nat (nblk - 1)) = Some blk ->
     shape blk = (di, dj, dk) ->
     idims (Some cs) nblk = ok di /\
     jdims (Some cs) nblk = ok dj /\
     kdims (Some cs) nblk = ok dk) /\
  (forall (cs : list (Block coord)) nblk blk di dj dk,
     1 - Z.of_nat (List.length cs) <= nblk <= 0 ->
     nth_error cs (Z.to_nat (nblk - 1 + Z.of_nat (List.length cs))) = Some blk ->
     shape blk = (di, dj, dk) ->
     idims (Some cs) nblk = ok di /\
     jdims (Some cs) nblk = ok dj /\
     kdims (Some cs) nblk = ok dk) /\
  (forall (cs : list (Block coord)) nblk,
     fits_long (nblk - 1) ->
     nblk < 1 - Z.of_nat (List.length cs) \/ Z.of_nat (List.length cs) < nblk ->
     idims (Some cs) nblk = throw IndexError "list index out of range" /\
     jdims (Some cs) nblk = throw IndexError "list index out of range" /\
     kdims (Some cs) nblk = throw IndexError "list index out of range") /\
  (forall nblk,
     idims (coord:=coord) None nblk
       = throw TypeError "'NoneType' object has no attribute '__getitem__'" /\
     jdims (coord:=coord) None nblk
       = throw TypeError "'NoneType' object has no attribute '__getitem__'" /\
     kdims (coord:=coord) None nblk
       = throw TypeError "'NoneType' object has no attribute '__getitem__'").
Proof.
  split; [|split; [|split]].
  - intros cs nblk blk di dj dk Hn Hblk Hshape.
    unfold idims, jdims, kdims, block_of.
    rewrite py_getitem_nth by lia. rewrite Hblk. cbn [rbind ok].
    rewrite Hshape. auto.
  - intros cs nblk blk di dj dk Hn Hblk Hshape.
    unfold idims, jdims, kdims, block_of.
    rewrite py_getitem_neg by lia. rewrite Hblk. cbn [rbind ok].
    rewrite Hshape. auto.
  - intros cs nblk _ Hn. unfold idims, jdims, kdims, block_of.
    rewrite py_getitem_out by lia. auto.
  - intros nblk. unfold idims, jdims, kdims, block_of. auto.
Qed.

End IndexerEdges.

(** ** The nodes of a conversion *)

Lemma flat_map_ext_in {A B} (g h : A -> list B) (l : list A) :
  (forall a, In a l -> g a = h a) -> flat_map g l = flat_map h l.
Proof.
  induction l as [|a l IH]; intros H; [reflexivity|].
  cbn [flat_map]. rewrite (H a) by now left.
  rewrite IH by (intros; apply H; now right). reflexivity.
Qed.

Section Nodes.

Context {coord : Type}.
Implicit Types (f : P3DfmtFile coord) (blk : Block coord).

Lemma block_nodes_ids f b blk :
  map node_id (block_nodes f b blk) = map (global_id f b) (block_points blk).
Proof.
  unfold block_nodes. rewrite map_map. apply map_ext.
  intros [[i j] k]. reflexivity.
Qed.

Lemma block_ranges_tile f (n : nat) :
  Forall shape_ok (coords f) -> (n <= List.length (coords f))%nat ->
  flat_map (fun b => xrange (1 + offset f b) (1 + offset f (b + 1)))
           (xrange 0 (Z.of_nat n)) =
  xrange 1 (1 + offset f (Z.of_nat n)).
Proof.
  intros Hok. induction n as [|n IH]; intros Hn.
  - rewrite xrange_nil by lia. rewrite offset_zero. now rewrite xrange_nil by lia.
  - replace (Z.of_nat (S n)) with (Z.of_nat n + 1) by lia.
    rewrite xrange_snoc by lia. rewrite flat_map_app, IH by lia.
    cbn [flat_map]. rewrite app_nil_r.
    symmetry. apply xrange_app.
    pose proof (@offset_mono _ f 0 (Z.of_nat n) Hok ltac:(lia)) as H0.
    pose proof (@offset_mono _ f (Z.of_nat n) (Z.of_nat n + 1) Hok ltac:(lia)).
    rewrite offset_zero in H0. lia.
Qed.

Lemma nodes_of_blocks_ids f :
  loaded f ->
  map node_id (flat_map (nodes_of_block f) (xrange 0 (nblocks f))) =
  xrange 1 (1 + offset f (nblocks f)).
Proof.
  intros [Hsz Hok]. rewrite map_flat_map.
  rewrite (flat_map_ext_in _
             (fun b => xrange (1 + offset f b) (1 + offset f (b + 1)))).
  - rewrite Hsz. apply block_ranges_tile; [assumption|lia].
  - intros b Hb. apply in_xrange in Hb. unfold nodes_of_block.
    destruct (nth_error (coords f) (Z.to_nat b)) as [blk|] eqn:Hblk.
    + rewrite block_nodes_ids, global_ids_of_block; try assumption.
      * rewrite (@offset_succ _ f b blk) by (assumption || lia).
        f_equal. lia.
      * rewrite Forall_forall in Hok. apply Hok. eapply nth_error_In, Hblk.
    + apply nth_error_None in Hblk. lia.
Qed.

(** [emit_quad], and so the loops of [_gen_boundary], leave the nodes and
    the groups alone, also when they raise. *)
Lemma emit_quad_frame f blkn gid p1 p2 p3 p4 ns gs :
  hoare (nodes_groups_are ns gs) (emit_quad f blkn gid p1 p2 p3 p4)
        (fun _ => nodes_groups_are ns gs) (fun _ => nodes_groups_are ns gs).
Proof.
  unfold emit_quad.
  eapply hoare_bind with (Q := fun _ => nodes_groups_are ns gs);
    [intros s Hs; exact Hs|]. intros el_id.
  do 4 (eapply hoare_bind; [apply lift_keeps; auto|]; intros ?).
  intros s Hs. exact Hs.
Qed.

Lemma gen_boundary_frame f b (s : GmshFile coord) g :
  max_group (groups s) = ok g ->
  nodes_groups_are (nodes s)
    (groups s ++ [(2, group_id g + 1,
                   ("b" ++ str_of_int (group_id g + 1) ++ "-" ++ label b)%string)])
    (snd (_gen_boundary f b s)).
Proof.
  intros Hmax.
  set (nb := (2, group_id g + 1,
              ("b" ++ str_of_int (group_id g + 1) ++ "-" ++ label b)%string)).
  assert (H : hoare (fun s0 => s0 = s) (_gen_boundary f b)
                (fun _ => nodes_groups_are (nodes s) (groups s ++ [nb]))
                (fun _ => nodes_groups_are (nodes s) (groups s ++ [nb]))).
  { unfold _gen_boundary.
    eapply hoare_bind with (Q := fun gid s0 => s0 = s /\ gid = group_id g + 1).
    { intros s0 ->. unfold _next_group_id. rewrite Hmax. cbn. auto. }
    intros gid.
    eapply hoare_bind with
      (Q := fun _ s0 => nodes_groups_are (nodes s) (groups s ++ [nb]) s0 /\
                        gid = group_id g + 1).
    { intros s0 [-> ->]. cbn. repeat split. }
    intros [].
    apply hoare_weaken with
      (P := nodes_groups_are (nodes s) (groups s ++ [nb]))
      (Q := fun _ => nodes_groups_are (nodes s) (groups s ++ [nb]))
      (E := fun _ => nodes_groups_are (nodes s) (groups s ++ [nb]));
      [| intros s0 [Hs0 _]; exact Hs0 | auto | auto].
    eapply hoare_bind; [apply lift_keeps; auto|]. intros b1.
    eapply hoare_bind; [apply lift_keeps; auto|]. intros blk.
    destruct (shape blk) as [[di dj] dk].
    eapply hoare_bind; [apply lift_keeps; auto|]. intros [[[s1 e1] s2] e2].
    eapply hoare_bind; [apply lift_keeps; auto|]. intros face.
    assert (Hloops : forall l2 l1 (P1 P2 P3 P4 : Z -> Z -> Z * Z * Z),
      hoare (nodes_groups_are (nodes s) (groups s ++ [nb]))
        (for_ l2 (fun v2 => for_ l1 (fun v1 =>
           emit_quad f (b1 - 1) gid (P1 v1 v2) (P2 v1 v2) (P3 v1 v2) (P4 v1 v2))))
        (fun _ => nodes_groups_are (nodes s) (groups s ++ [nb]))
        (fun _ => nodes_groups_are (nodes s) (groups s ++ [nb]))).
    { intros l2 l1 P1 P2 P3 P4. apply hoare_for. intros v2 _.
      apply hoare_for. intros v1 _. apply emit_quad_frame. }
    destruct (face =? 1); [apply Hloops|].
    destruct (face =? 2); [apply Hloops|].
    destruct (face =? 3); [apply Hloops|].
    destruct (face =? 4); [apply Hloops|].
    destruct (face =? 5); [apply Hloops|].
    destruct (face =? 6); [apply Hloops|].
    apply lift_keeps. auto. }
  specialize (H s eq_refl).
  destruct (_gen_boundary f b s) as [[e|u] s']; exact H.
Qed.

End Nodes.

Lemma fold_max_ge (l : list Z) : forall a,
  a <= fold_left Z.max l a /\ Forall (fun x => x <= fold_left Z.max l a) l.
Proof.
  induction l as [|x l IH]; intros a; cbn [fold_left].
  - split; [lia|constructor].
  - destruct (IH (Z.max a x)) as [H1 H2]. split; [lia|].
    constructor; [lia|exact H2].
Qed.

Lemma max_group_greatest (gs : list group) g :
  max_group gs = ok g -> Forall (fun g' => group_id g' <= group_id g) gs.
Proof.
  destruct gs as [|g0 gs]; [discriminate|].
  unfold max_group, ok. intros H.
  assert (Hg : g = fold_left (fun best g' =>
                 if group_id best <? group_id g' then g' else best) gs g0)
    by congruence.
  rewrite Hg, max_group_id.
  destruct (fold_max_ge (map group_id gs) (group_id g0)) as [H1 H2].
  constructor; [exact H1|]. now rewrite Forall_map in H2.
Qed.

Section GroupsAndNodes.

Context {coord : Type}.
Implicit Types (f : P3DfmtFile coord) (blk : Block coord).

Lemma gen_boundary_no_groups f b (s : GmshFile coord) :
  groups s = [] ->
  _gen_boundary f b s = (throw ValueError "max() arg is an empty sequence", s).
Proof.
  intros H. unfold _gen_boundary, bind, _next_group_id. now rewrite H.
Qed.

Lemma gen_boundary_nodes f b (s : GmshFile coord) :
  nodes (snd (_gen_boundary f b s)) = nodes s.
Proof.
  destruct (max_group (groups s)) as [e|g] eqn:Hmax.
  - unfold max_group in Hmax. destruct (groups s) eqn:Hgs; [|discriminate].
    now rewrite gen_boundary_no_groups.
  - now destruct (@gen_boundary_frame _ f b s g Hmax) as [Hn _].
Qed.

(** X4: on any mesh that has a group, [_gen_boundary] appends exactly one
    group of dimension 2, whatever it does afterwards, returning or
    raising; the id of that group is greater than every id the mesh had,
    and the nodes are left as they were.  On a mesh without any group it
    raises [ValueError] and changes nothing. *)
Theorem gen_boundary_group_allocation :
  (forall (f : P3DfmtFile coord) b (s : GmshFile coord),
     groups s = [] ->
     _gen_boundary f b s
     = (throw ValueError "max() arg is an empty sequence", s)) /\
  (forall (f : P3DfmtFile coord) b (s : GmshFile coord),
     groups s <> [] ->
     exists gid,
       groups (snd (_gen_boundary f b s))
       = groups s ++ [(2, gid, ("b" ++ str_of_int gid ++ "-" ++ label b)%string)] /\
       Forall (fun g => group_id g < gid) (groups s) /\
       nodes (snd (_gen_boundary f b s)) = nodes s).
Proof.
  split.
  - intros f b s. apply gen_boundary_no_groups.
  - intros f b s Hne.
    destruct (max_group (groups s)) as [e|g] eqn:Hmax.
    { unfold max_group in Hmax. destruct (groups s); [contradiction|discriminate]. }
    exists (group_id g + 1).
    destruct (@gen_boundary_frame _ f b s g Hmax) as [Hn Hg].
    split; [exact Hg|]. split; [|exact Hn].
    apply max_group_greatest in Hmax.
    eapply Forall_impl; [|exact Hmax]. intros g' Hg'. cbn in Hg'. lia.
Qed.

Lemma consume_nodes f mapfile :
  nblocks f = Z.of_nat (List.length (coords f)) ->
  nodes (snd (consume f mapfile GmshFile_new))
  = flat_map (nodes_of_block f) (xrange 0 (nblocks f)).
Proof.
  intros Hsz. unfold consume.
  unfold bind at 1. rewrite append_group_run. cbn [ok].
  unfold bind at 1. rewrite blocks_run by assumption. cbn [ok].
  rewrite extend_extend. cbn [app].
  set (s1 := extend _ _ _ GmshFile_new).
  assert (Hs1 : nodes s1 = flat_map (nodes_of_block f) (xrange 0 (nblocks f)))
    by reflexivity.
  destruct mapfile as [bs|]; [|exact Hs1].
  assert (H : hoare (fun s => nodes s = nodes s1)
                (for_ bs (fun b => _gen_boundary f b))
                (fun _ s => nodes s = nodes s1) (fun _ s => nodes s = nodes s1)).
  { apply hoare_for. intros b _ s Hs.
    pose proof (gen_boundary_nodes f b s) as Hn.
    destruct (_gen_boundary f b s) as [[e|u] s']; cbn [snd] in Hn; congruence. }
  specialize (H s1 eq_refl).
  destruct (for_ bs (fun b => _gen_boundary f b) s1) as [[e|u] s'];
    cbn [snd]; congruence.
Qed.

(** X5: whatever the records, and whether the conversion returns or
    raises, the nodes of a conversion of a loaded grid are those of the
    blocks in block order, each grid point once in [(i, j, k)] loop order
    with its coordinates, and their ids are 1, 2, ..., up to the sum of the
    sizes of the blocks. *)
Theorem conversion_nodes_dense (f : P3DfmtFile coord) mapfile :
  loaded f ->
  let s' := snd (consume f mapfile GmshFile_new) in
  nodes s' = flat_map (nodes_of_block f) (xrange 0 (nblocks f)) /\
  map node_id (nodes s') = xrange 1 (1 + offset f (nblocks f)) /\
  Z.of_nat (List.length (nodes s')) = offset f (nblocks f).
Proof.
  intros Hl s'. pose proof Hl as [Hsz Hok].
  assert (Hn : nodes s' = flat_map (nodes_of_block f) (xrange 0 (nblocks f)))
    by (apply consume_nodes; assumption).
  assert (Hids : map node_id (nodes s') = xrange 1 (1 + offset f (nblocks f)))
    by (rewrite Hn; now apply nodes_of_blocks_ids).
  split; [exact Hn|]. split; [exact Hids|].
  rewrite <- (length_map node_id), Hids, xrange_length.
  pose proof (@offset_mono _ f 0 (nblocks f) Hok ltac:(lia)) as H0.
  rewrite offset_zero in H0. lia.
Qed.

(** X6: [consume] without a map file, as its default argument has it,
    never returns: on a grid with one coordinate entry per block it builds
    the volume group, all nodes and all hexahedra, and then raises
    [AttributeError]. *)
Theorem consume_without_mapfile (f : P3DfmtFile coord) :
  nblocks f = Z.of_nat (List.length (coords f)) ->
  consume f None GmshFile_new =
  (throw AttributeError "'NoneType' object has no attribute 'boundaries'",
   extend (flat_map (nodes_of_block f) (xrange 0 (nblocks f)))
          (flat_map (hexahedra_of_block f) (xrange 0 (nblocks f)))
          [(3, 1, "mesh"%string)] GmshFile_new).
Proof.
  intros Hsz. unfold consume.
  unfold bind at 1. rewrite append_group_run. cbn [ok].
  unfold bind at 1. rewrite blocks_run by assumption. cbn [ok].
  rewrite extend_extend. reflexivity.
Qed.

End GroupsAndNodes.

(** ** Failures of the boundary face generator *)

Lemma unpack4_short b :
  (List.length (ints b) < 6)%nat -> exists e, unpack4 b = inl e.
Proof.
  unfold unpack4. intros H.
  destruct (ints b) as [|x0 [|x1 [|x2 [|x3 [|x4 [|x5 l]]]]]];
    cbn in H; try lia; cbn [skipn firstn]; eexists; reflexivity.
Qed.

Section Failures.

Context {coord : Type}.
Implicit Types (f : P3DfmtFile coord) (blk : Block coord).

Lemma emit_quad_returns f blkn blk gid p1 p2 p3 p4 :
  nblocks f = Z.of_nat (List.length (coords f)) ->
  py_getitem "list" (coords f) blkn = ok blk ->
  hoare (fun _ => True) (emit_quad f blkn gid p1 p2 p3 p4)
        (fun _ _ => True) (fun _ _ => False).
Proof.
  intros Hsz Hget.
  destruct p1 as [[i1 j1] k1], p2 as [[i2 j2] k2],
           p3 as [[i3 j3] k3], p4 as [[i4 j4] k4].
  unfold emit_quad.
  eapply hoare_bind with (Q := fun _ _ => True); [intros s _; exact I|].
  intros el_id.
  repeat (eapply hoare_bind with (Q := fun _ _ => True);
          [apply hoare_lift;
           [auto
           |intros e s H _;
            match type of H with
            | _p3d_node_id _ _ ?i ?j ?k = _ =>
                destruct (@_p3d_node_id_returns _ f blkn blk i j k Hsz Hget)
                  as [id Hid]; rewrite Hid in H; discriminate H
            end]
          |intros ?]).
  intros s _. exact I.
Qed.

Lemma quad_loops_return f blkn blk gid (l2 l1 : list Z)
    (P1 P2 P3 P4 : Z -> Z -> Z * Z * Z) (s s' : GmshFile coord) e :
  nblocks f = Z.of_nat (List.length (coords f)) ->
  py_getitem "list" (coords f) blkn = ok blk ->
  for_ l2 (fun v2 => for_ l1 (fun v1 =>
     emit_quad f blkn gid (P1 v1 v2) (P2 v1 v2) (P3 v1 v2) (P4 v1 v2))) s
  <> (inl e, s').
Proof.
  intros Hsz Hget Hrun.
  assert (H : hoare (fun _ : GmshFile coord => True)
                (for_ l2 (fun v2 => for_ l1 (fun v1 =>
                   emit_quad f blkn gid (P1 v1 v2) (P2 v1 v2) (P3 v1 v2) (P4 v1 v2))))
                (fun _ _ => True) (fun _ _ => False)).
  { apply hoare_for. intros v2 _. apply hoare_for. intros v1 _.
    now apply emit_quad_returns with (blk := blk). }
  specialize (H s I). rewrite Hrun in H. exact H.
Qed.

Lemma gen_boundary_failure_state
    (f : P3DfmtFile coord) b (s s' : GmshFile coord) e :
  nblocks f = Z.of_nat (List.length (coords f)) ->
  _gen_boundary f b s = (inl e, s') ->
  (s' = s /\ groups s = []) \/
  (exists nb, next_group s b = ok nb /\ s' = extend [] [] [nb] s).
Proof.
  intros Hsz. unfold _gen_boundary, next_group.
  unfold bind at 1, _next_group_id.
  destruct (max_group (groups s)) as [e0|g] eqn:Hmax.
  { intros H. inversion H; subst. left. split; [reflexivity|].
    unfold max_group in Hmax. destruct (groups _); [reflexivity|discriminate]. }
  cbn [rbind ok]. intros H. right. eexists. split; [reflexivity|].
  revert H.
  unfold bind at 1. rewrite append_group_run. cbn [ok].
  unfold bind at 1, lift at 1.
  destruct (bdry_item b 1) as [e1|b1]; [intros H; now inversion H|].
  unfold bind at 1, lift at 1.
  destruct (py_getitem "list" (coords f) (b1 - 1)) as [e1|blk] eqn:Hget;
    [intros H; now inversion H|].
  destruct (shape blk) as [[di dj] dk].
  unfold bind at 1, lift at 1.
  destruct (unpack4 b) as [e1|[[[s1 e1] s2] e2]]; [intros H; now inversion H|].
  unfold bind at 1, lift at 1.
  destruct (bdry_item b 2) as [e3|face]; [intros H; now inversion H|].
  assert (Hloops : forall l2 l1 (P1 P2 P3 P4 : Z -> Z -> Z * Z * Z)
                          (s0 : GmshFile coord),
    for_ l2 (fun v2 => for_ l1 (fun v1 =>
       emit_quad f (b1 - 1) (group_id g + 1)
                 (P1 v1 v2) (P2 v1 v2) (P3 v1 v2) (P4 v1 v2))) s0
    <> (inl e, s')).
  { intros. eapply quad_loops_return; eassumption. }
  destruct (face =? 1); [intros H; now apply Hloops in H|].
  destruct (face =? 2); [intros H; now apply Hloops in H|].
  destruct (face =? 3); [intros H; now apply Hloops in H|].
  destruct (face =? 4); [intros H; now apply Hloops in H|].
  destruct (face =? 5); [intros H; now apply Hloops in H|].
  destruct (face =? 6); [intros H; now apply Hloops in H|].
  unfold lift. intros H. now inversion H.
Qed.

(** X7: on a grid with one coordinate entry per block, a call of
    [_gen_boundary] that raises has appended no element and taken no
    element id: the mesh is as before (when it had no group), or as before
    with the one group of the record appended. *)
Theorem gen_boundary_failure_appends_no_element
    (f : P3DfmtFile coord) b (s s' : GmshFile coord) e :
  nblocks f = Z.of_nat (List.length (coords f)) ->
  _gen_boundary f b s = (inl e, s') ->
  elements s' = elements s /\ element_id s' = element_id s /\
  nodes s' = nodes s /\
  ((groups s = [] /\ groups s' = []) \/
   (exists nb, next_group s b = ok nb /\ groups s' = groups s ++ [nb])).
Proof.
  intros Hsz Hrun.
  destruct (@gen_boundary_failure_state f b s s' e Hsz Hrun)
    as [[-> Hg] | (nb & Hnb & ->)].
  - repeat split; auto.
  - cbn [extend elements element_id nodes groups with_ids List.length].
    rewrite !app_nil_r. repeat split; try lia. right. eauto.
Qed.

(** X8: a record with fewer than six integers never gets through
    [_gen_boundary], whatever the grid and the mesh: the call raises. *)
Theorem gen_boundary_short_record_fails
    (f : P3DfmtFile coord) b (s : GmshFile coord) :
  (List.length (ints b) < 6)%nat ->
  exists e, fst (_gen_boundary f b s) = inl e.
Proof.
  intros Hshort. destruct (unpack4_short b Hshort) as [eu Hun].
  unfold _gen_boundary.
  unfold bind at 1, _next_group_id.
  destruct (max_group (groups s)) as [e0|g]; [eexists; reflexivity|].
  cbn [rbind ok].
  unfold bind at 1. rewrite append_group_run. cbn [ok].
  unfold bind at 1, lift at 1.
  destruct (bdry_item b 1) as [e1|b1]; [eexists; reflexivity|].
  unfold bind at 1, lift at 1.
  destruct (py_getitem "list" (coords f) (b1 - 1)) as [e1|blk];
    [eexists; reflexivity|].
  destruct (shape blk) as [[di dj] dk].
  unfold bind at 1, lift at 1. rewrite Hun. eexists; reflexivity.
Qed.

End Failures.

(** ** The node ids the elements refer to *)


Section Corners.

Context {coord : Type}.
Implicit Types (f : P3DfmtFile coord) (blk : Block coord).








End Corners.

(** ** Counts and tags of the elements *)


Lemma Forall_with_ids (P : list Z -> Prop) bodies : forall next,
  Forall P bodies -> Forall (fun el => P (tl el)) (with_ids next bodies).
Proof.
  induction bodies as [|b bodies IH]; intros next H; cbn [with_ids].
  - constructor.
  - inversion H; subst. constructor; [assumption|now apply IH].
Qed.

Section CountsAndTags.

Context {coord : Type}.
Implicit Types (f : P3DfmtFile coord) (blk : Block coord).


Lemma hexahedra_tagged f blkn (gs : list group) :
  In (3, 1, "mesh"%string) gs ->
  Forall (fun body => element_tagged gs (0 :: body)) (hexahedra_of_block f blkn).
Proof.
  intros Hin. unfold hexahedra_of_block.
  destruct (nth_error (coords f) (Z.to_nat blkn)) as [blk|]; [|constructor].
  apply Forall_map, Forall_forall. intros [j k] _.
  exists (3, 1, "mesh"%string). split; [assumption|].
  split; [reflexivity|]. left. repeat split.
Qed.

Lemma quads_of_record_tagged f b gid (gs : list group) :
  In (group_of_record b gid) gs ->
  Forall (fun body => element_tagged gs (0 :: body)) (quads_of_record f b gid).
Proof.
  intros Hin. unfold quads_of_record.
  destruct (ints b) as [|blkno [|face [|s1 [|e1 [|s2 [|e2 [|x l]]]]]]];
    try constructor.
  destruct (nth_error (coords f) (Z.to_nat (blkno - 1))) as [blk|];
    [|constructor].
  destruct (face_table face) as [row|]; [|constructor].
  apply Forall_map, Forall_forall. intros [a c] _.
  exists (group_of_record b gid). split; [assumption|].
  split; [reflexivity|]. right. repeat split.
Qed.

Lemma quads_of_records_tagged f bs : forall gid (gs : list group),
  incl (groups_of_records bs gid) gs ->
  Forall (fun body => element_tagged gs (0 :: body)) (quads_of_records f bs gid).
Proof.
  induction bs as [|b bs IH]; intros gid gs Hincl; cbn [quads_of_records].
  - constructor.
  - cbn [groups_of_records] in Hincl. apply Forall_app. split.
    + apply quads_of_record_tagged. apply Hincl. now left.
    + apply IH. intros g Hg. apply Hincl. now right.
Qed.

Lemma element_tagged_any_id gs id id' body :
  element_tagged gs (id :: body) -> element_tagged gs (id' :: body).
Proof. intros (g & Hin & Hid & Hkind). exists g. auto. Qed.

Lemma with_ids_tagged (gs : list group) bodies :
  Forall (fun body => element_tagged gs (0 :: body)) bodies ->
  forall next, Forall (element_tagged gs) (with_ids next bodies).
Proof.
  induction 1 as [|body bodies Hb _ IH]; intros next; cbn [with_ids].
  - constructor.
  - constructor; [|apply IH]. eapply element_tagged_any_id, Hb.
Qed.

(** X13: in the mesh a conversion of a loaded grid with records of the
    data model returns, every element is a hexahedron of 13 fields tagged
    with a group of dimension 3 of the mesh, or a quadrilateral of 9 fields
    tagged with a group of dimension 2 of the mesh: no element refers to a
    group the mesh does not have. *)
Theorem conversion_elements_tagged f bs :
  nblocks f = Z.of_nat (List.length (coords f)) ->
  Forall (record_ok f) bs ->
  let s' := snd (consume f (Some bs) GmshFile_new) in
  Forall (element_tagged (groups s')) (elements s').
Proof.
  intros Hsz Hok s'. subst s'. rewrite consume_run by assumption.
  cbn [snd extend elements groups GmshFile_new app].
  set (gs := (3, 1, "mesh"%string) :: groups_of_records bs 2).
  assert (Hbodies :
    Forall (fun body => element_tagged gs (0 :: body))
           (flat_map (hexahedra_of_block f) (xrange 0 (nblocks f))
            ++ quads_of_records f bs 2)).
  { apply Forall_app. split.
    - apply Forall_flat_map, Forall_forall. intros blkn _.
      apply hexahedra_tagged. now left.
    - apply quads_of_records_tagged. intros g Hg. now right. }
  now apply with_ids_tagged.
Qed.

End CountsAndTags.

(** ** More on the reader of the neutral map file *)

Lemma all_blank_substring s : forall n m,
  all_blank s = true -> all_blank (substring n m s) = true.
Proof.
  induction s as [|c s IH]; intros n m H.
  - destruct n, m; reflexivity.
  - cbn [all_blank] in H. apply andb_prop in H as [Hc Hs].
    destruct n as [|n]; destruct m as [|m]; cbn [substring all_blank];
      auto.
    rewrite Hc. cbn. auto.
Qed.

Lemma all_blank_split s : all_blank s = true -> split s = [].
Proof.
  unfold split. induction s as [|c s IH]; intros H; [reflexivity|].
  cbn [all_blank] in H. apply andb_prop in H as [Hc Hs].
  cbn [split_from]. rewrite Hc. cbn. auto.
Qed.

Lemma map_result_length {A B} (f : A -> result B) (l : list A) : forall l',
  map_result f l = ok l' -> List.length l' = List.length l.
Proof.
  induction l as [|a l IH]; intros l' H; cbn [map_result] in H.
  - inversion H. reflexivity.
  - destruct (f a) as [e|b]; [discriminate|]. cbn [rbind] in H.
    destruct (map_result f l) as [e|bs]; [discriminate|]. cbn [rbind ok] in H.
    inversion H. cbn [List.length]. f_equal. now apply IH.
Qed.

Lemma boundary_of_line_ints l b :
  boundary_of_line l = ok (Some b) -> (List.length (ints b) <= 6)%nat.
Proof.
  unfold boundary_of_line.
  destruct (line_tokens l) as [|b0 rest]; [discriminate|].
  destruct (String.eqb (py_slice b0 1 (-1)) connectivity_marker); [discriminate|].
  destruct (map_result py_int (firstn 6 rest)) as [e|ns] eqn:Hns; [discriminate|].
  cbn [rbind ok]. intros H. inversion H. cbn [ints].
  rewrite (map_result_length _ _ Hns). apply firstn_le_length.
Qed.

Lemma read_boundaries_ints fp : forall acc bs,
  Forall (fun b => (List.length (ints b) <= 6)%nat) acc ->
  read_boundaries fp acc = ok bs ->
  Forall (fun b => (List.length (ints b) <= 6)%nat) bs.
Proof.
  induction fp as [|l fp IH]; intros acc bs Hacc H.
  - cbn in H. inversion H. now subst.
  - cbn [read_boundaries] in H.
    destruct (boundary_of_line l) as [e|r] eqn:Hl; [discriminate|].
    cbn [rbind] in H. eapply IH; [|exact H].
    destruct r as [b|]; [|assumption].
    apply Forall_app. split; [assumption|].
    constructor; [|constructor]. eapply boundary_of_line_ints, Hl.
Qed.

(** X14: a line of blanks only, the empty line included, adds no record
    and raises nothing: the records read are those read without it. *)
Theorem blank_lines_skipped :
  forall l, all_blank l = true ->
    boundary_of_line l = ok None /\
    forall fp1 fp2 acc,
      read_boundaries (fp1 ++ l :: fp2) acc = read_boundaries (fp1 ++ fp2) acc.
Proof.
  intros l Hl.
  assert (Hnone : boundary_of_line l = ok None).
  { unfold boundary_of_line, line_tokens.
    destruct (endswith l (String backslash "")).
    - unfold py_slice. now rewrite all_blank_split by now apply all_blank_substring.
    - now rewrite all_blank_split. }
  split; [exact Hnone|]. intros fp1 fp2 acc.
  rewrite !read_boundaries_app.
  destruct (read_boundaries fp1 acc) as [e|bs]; [reflexivity|].
  cbn [rbind read_boundaries]. now rewrite Hnone.
Qed.

(** X15: a record holds the integers of the first six tokens after the
    label, and of no other token.  Every record of a loaded map file has at
    most six integers; the integers of a record are those of the first six
    tokens after the label of its line, as many as there are; the tokens
    after the seventh are dropped without being parsed, whatever they are;
    and nothing asks for six: a line with fewer tokens after the label is
    loaded as a record of as many integers. *)
Theorem loaded_records_at_most_six_ints :
  (forall file bs,
     NeutralMapFile file = ok bs ->
     Forall (fun b => (List.length (ints b) <= 6)%nat) bs) /\
  (forall l b,
     boundary_of_line l = ok (Some b) ->
     exists b0 rest,
       line_tokens l = b0 :: rest /\
       label b = py_slice b0 1 (-1) /\
       map_result py_int (firstn 6 rest) = ok (ints b) /\
       List.length (ints b) = Nat.min 6 (List.length rest)) /\
  (forall l b0 rest extra ns,
     line_tokens l = b0 :: rest ++ extra ->
     (py_slice b0 1 (-1) =? connectivity_marker)%string = false ->
     List.length rest = 6%nat ->
     map_result py_int rest = ok ns ->
     boundary_of_line l = ok (Some (mkBdry (py_slice b0 1 (-1)) ns)) /\
     List.length ns = 6%nat) /\
  (forall l b0 rest ns,
     line_tokens l = b0 :: rest ->
     (py_slice b0 1 (-1) =? connectivity_marker)%string = false ->
     (List.length rest < 6)%nat ->
     map_result py_int rest = ok ns ->
     boundary_of_line l = ok (Some (mkBdry (py_slice b0 1 (-1)) ns)) /\
     List.length ns = List.length rest).
Proof.
  split; [|split; [|split]].
  - intros [text|] bs H.
    + unfold NeutralMapFile in H.
      destruct (skip_header (readlines text)) as [e|fp]; [discriminate|].
      cbn [rbind] in H. eapply read_boundaries_ints; [constructor|exact H].
    + inversion H. constructor.
  - intros l b. unfold boundary_of_line.
    destruct (line_tokens l) as [|b0 rest]; [discriminate|].
    destruct (String.eqb (py_slice b0 1 (-1)) connectivity_marker);
      [discriminate|].
    destruct (map_result py_int (firstn 6 rest)) as [e|ns] eqn:Hns;
      [discriminate|].
    cbn [rbind ok]. intros H. inversion H. cbn [ints label].
    exists b0, rest.
    split; [reflexivity|]. split; [reflexivity|]. split; [exact Hns|].
    rewrite (map_result_length _ _ Hns). apply length_firstn.
  - intros l b0 rest extra ns Htok Hlab Hlen Hns. unfold boundary_of_line.
    rewrite Htok, Hlab.
    rewrite firstn_app, firstn_all2 by lia.
    replace (6 - List.length rest)%nat with 0%nat by lia.
    cbn [firstn]. rewrite app_nil_r, Hns. cbn [rbind ok].
    split; [reflexivity|]. rewrite (map_result_length _ _ Hns). exact Hlen.
  - intros l b0 rest ns Htok Hlab Hlen Hns. unfold boundary_of_line.
    rewrite Htok, Hlab. rewrite firstn_all2 by lia. rewrite Hns.
    cbn [rbind ok]. split; [reflexivity|]. apply (map_result_length _ _ Hns).
Qed.

Lemma tl_skipn {A} (l : list A) : forall n, tl (skipn n l) = skipn (S n) l.
Proof.
  induction l as [|a l IH]; intros [|n]; try reflexivity.
  cbn [skipn]. apply IH.
Qed.

(** X16: the header of a map file is what the fifth line says: when the
    fifth line without its last two characters is the integer [n], and [n]
    fits a C long, the records start after [10 + max 0 n] lines, whatever
    those lines hold;
    when it is no integer, and so when the file has fewer than five lines,
    loading raises [ValueError]. *)
Theorem header_length :
  (forall fp n,
     py_int (py_slice (nth 4 fp ""%string) 0 (-2)) = ok n ->
     fits_long n ->
     skip_header fp = ok (skipn (10 + Z.to_nat n) fp)) /\
  (forall fp e,
     py_int (py_slice (nth 4 fp ""%string) 0 (-2)) = inl e ->
     skip_header fp = inl e) /\
  (forall text,
     (List.length (readlines text) < 5)%nat ->
     NeutralMapFile (Some text)
     = throw ValueError "invalid literal for int() with base 10").
Proof.
  assert (Hhd : forall fp : list string,
             hd ""%string (skipn 4 fp) = nth 4 fp ""%string).
  { intros fp. do 4 (destruct fp as [|? fp]; [reflexivity|]).
    destruct fp; reflexivity. }
  split; [|split].
  - intros fp n Hn _. unfold skip_header, readline. cbn [fst snd].
    rewrite Hhd, Hn. cbn [rbind ok]. f_equal.
    rewrite !tl_skipn, !skipn_skipn. f_equal. lia.
  - intros fp e He. unfold skip_header, readline. cbn [fst snd].
    rewrite Hhd, He. reflexivity.
  - intros text Hlen. unfold NeutralMapFile, skip_header, readline. cbn [fst snd].
    rewrite Hhd. rewrite nth_overflow by lia. reflexivity.
Qed.

(** ** The further properties on the sample inputs *)

Lemma p3d_node_id_block_index_edges_witness :
  (nblocks two_blocks <= 2 /\ - nblocks two_blocks <= -1 < 0 /\
   fits_long (-3) /\ -3 < - nblocks two_blocks) /\
  _p3d_node_id two_blocks 2 0 0 0
  = throw IndexError "Block number 2 is out of range." /\
  _p3d_node_id two_blocks (-1) 1 1 1 = ok 11 /\
  _p3d_node_id two_blocks (-3) 0 0 0 = throw IndexError "list index out of range".
Proof.
  assert (Hfit : fits_long (-3)) by (unfold fits_long, long_max; lia).
  split; [split; [cbn; lia|split; [cbn; lia|split; [exact Hfit|cbn; lia]]]|].
  destruct (@p3d_node_id_block_index_edges Z) as (Hhigh & Hneg & Hlow).
  split; [|split].
  - apply (Hhigh two_blocks 2 0 0 0); [reflexivity|cbn; lia].
  - apply (Hneg two_blocks (-1) (box (3, 2, 3)) 3 2 3 1 1 1);
      [reflexivity|cbn; lia|reflexivity|reflexivity].
  - apply (Hlow two_blocks (-3) 0 0 0); [reflexivity|exact Hfit|cbn; lia].
Defined.

Lemma p3d_node_id_raises_index_error_only_witness :
  (fits_long (-3) /\
   _p3d_node_id two_blocks (-3) 0 0 0
   = inl (Raise IndexError "list index out of range")) /\
  exn_cls (Raise IndexError "list index out of range") = IndexError.
Proof.
  assert (Hfit : fits_long (-3)) by (unfold fits_long, long_max; lia).
  split; [split; [exact Hfit|reflexivity]|].
  apply (@p3d_node_id_raises_index_error_only Z two_blocks (-3) 0 0 0 _ Hfit).
  reflexivity.
Defined.

Lemma dims_accessors_bounds_witness :
  (1 <= 2 /\ 1 - 2 <= 0 <= 0 /\ 2 < 3 /\ fits_long (3 - 1)) /\
  (idims (Some (coords two_blocks)) 2 = ok 3 /\
   jdims (Some (coords two_blocks)) 2 = ok 2 /\
   kdims (Some (coords two_blocks)) 2 = ok 3) /\
  (idims (Some (coords two_blocks)) 0 = ok 3 /\
   jdims (Some (coords two_blocks)) 0 = ok 2 /\
   kdims (Some (coords two_blocks)) 0 = ok 3) /\
  idims (Some (coords two_blocks)) 3 = throw IndexError "list index out of range" /\
  idims (coord:=Z) None 1
  = throw TypeError "'NoneType' object has no attribute '__getitem__'".
Proof.
  assert (Hfit : fits_long (3 - 1)) by (unfold fits_long, long_max; lia).
  split; [repeat split; try lia; apply Hfit|].
  destruct (@dims_accessors_bounds Z) as (Hpos & Hneg & Hout & Hnone).
  split; [|split; [|split]].
  - apply (Hpos (coords two_blocks) 2 (box (3, 2, 3)) 3 2 3);
      [lia|reflexivity|reflexivity].
  - apply (Hneg (coords two_blocks) 0 (box (3, 2, 3)) 3 2 3);
      [cbn; lia|reflexivity|reflexivity].
  - apply (Hout (coords two_blocks) 3); [exact Hfit|]. right. cbn. lia.
  - apply (Hnone 1).
Defined.

Lemma gen_boundary_group_allocation_witness :
  (groups (@GmshFile_new Z) = [] /\ groups mesh_only <> []) /\
  _gen_boundary one_block wall5 GmshFile_new
  = (throw ValueError "max() arg is an empty sequence", GmshFile_new) /\
  exists gid,
    groups (snd (_gen_boundary one_block wall7 mesh_only))
    = groups mesh_only ++ [(2, gid, ("b" ++ str_of_int gid ++ "-" ++ label wall7)%string)] /\
    Forall (fun g => group_id g < gid) (groups mesh_only) /\
    nodes (snd (_gen_boundary one_block wall7 mesh_only)) = nodes mesh_only.
Proof.
  split; [split; [reflexivity|discriminate]|].
  destruct (@gen_boundary_group_allocation Z) as [Hnone Hsome].
  split.
  - apply (Hnone one_block wall5 GmshFile_new). reflexivity.
  - apply (Hsome one_block wall7 mesh_only). discriminate.
Defined.

Lemma conversion_nodes_dense_witness :
  loaded two_blocks /\
  map node_id (nodes (snd (consume two_blocks None GmshFile_new))) = xrange 1 31 /\
  Z.of_nat (List.length (nodes (snd (consume two_blocks None GmshFile_new)))) = 30.
Proof.
  split; [exact two_blocks_loaded|].
  destruct (@conversion_nodes_dense Z two_blocks None two_blocks_loaded)
    as (_ & Hids & Hlen).
  split; [exact Hids|exact Hlen].
Defined.

Lemma consume_without_mapfile_witness :
  nblocks one_block = Z.of_nat (List.length (coords one_block)) /\
  fst (consume one_block None GmshFile_new)
  = throw AttributeError "'NoneType' object has no attribute 'boundaries'".
Proof.
  split; [reflexivity|].
  rewrite (@consume_without_mapfile Z one_block eq_refl). reflexivity.
Defined.

Lemma gen_boundary_failure_appends_no_element_witness :
  _gen_boundary one_block wall7 mesh_only
  = (inl unknown_face,
     mkGmsh 0 [] [] [(3, 1, "mesh"%string); (2, 2, "b2-odd"%string)]) /\
  elements (mkGmsh (coord := Z) 0 [] []
              [(3, 1, "mesh"%string); (2, 2, "b2-odd"%string)])
  = elements mesh_only.
Proof.
  split; [reflexivity|].
  destruct (@gen_boundary_failure_appends_no_element Z one_block wall7 mesh_only
              (mkGmsh 0 [] [] [(3, 1, "mesh"%string); (2, 2, "b2-odd"%string)])
              unknown_face eq_refl eq_refl) as (Hels & _).
  exact Hels.
Defined.

Lemma gen_boundary_short_record_fails_witness :
  (List.length (ints short_record) < 6)%nat /\
  exists e, fst (_gen_boundary one_block short_record mesh_only) = inl e.
Proof.
  assert (H : (List.length (ints short_record) < 6)%nat) by (cbn; lia).
  split; [exact H|].
  apply (@gen_boundary_short_record_fails Z one_block short_record mesh_only H).
Defined.





Lemma conversion_elements_tagged_witness :
  Forall (record_ok one_block) [wall5; wall1] /\
  Forall (element_tagged
            (groups (snd (consume one_block (Some [wall5; wall1]) GmshFile_new))))
         (elements (snd (consume one_block (Some [wall5; wall1]) GmshFile_new))).
Proof.
  split; [exact sample_records_ok|].
  apply (@conversion_elements_tagged Z one_block [wall5; wall1] eq_refl
           sample_records_ok).
Defined.

Lemma blank_lines_skipped_witness :
  all_blank blank_line = true /\
  boundary_of_line blank_line = ok None /\
  read_boundaries ([wall_line] ++ blank_line :: [inlet_line]) []
  = read_boundaries ([wall_line] ++ [inlet_line]) [].
Proof.
  assert (H : all_blank blank_line = true) by reflexivity.
  split; [exact H|].
  destruct (blank_lines_skipped blank_line H) as [Hnone Hskip].
  split; [exact Hnone|apply Hskip].
Defined.

Lemma loaded_records_at_most_six_ints_witness :
  (NeutralMapFile (Some map_text_ragged)
   = ok [mkBdry "far" [1; 2; 1; 3; 1; 2]; mkBdry "near" [1; 2]] /\
   line_tokens long_line
   = ("'far'" :: ["1"; "2"; "1"; "3"; "1"; "2"] ++ ["2"; "false"; "9"])%string /\
   line_tokens short_line = ["'near'"; "1"; "2"]%string) /\
  Forall (fun b => (List.length (ints b) <= 6)%nat)
         [mkBdry "far" [1; 2; 1; 3; 1; 2]; mkBdry "near" [1; 2]] /\
  boundary_of_line long_line = ok (Some (mkBdry "far" [1; 2; 1; 3; 1; 2])) /\
  boundary_of_line short_line = ok (Some (mkBdry "near" [1; 2])).
Proof.
  assert (H : NeutralMapFile (Some map_text_ragged)
              = ok [mkBdry "far" [1; 2; 1; 3; 1; 2]; mkBdry "near" [1; 2]])
    by reflexivity.
  split; [split; [exact H|split; reflexivity]|].
  destruct loaded_records_at_most_six_ints as (Hsix & _ & Hlong & Hshort).
  split; [|split].
  - apply (Hsix (Some map_text_ragged) _ H).
  - apply (Hlong long_line "'far'" ["1"; "2"; "1"; "3"; "1"; "2"]
             ["2"; "false"; "9"] [1; 2; 1; 3; 1; 2])%string; reflexivity.
  - apply (Hshort short_line "'near'" ["1"; "2"] [1; 2])%string;
      try reflexivity. cbn. lia.
Defined.

Lemma header_length_witness :
  (py_int (py_slice (nth 4 (readlines map_text) ""%string) 0 (-2)) = ok 1 /\
   fits_long 1 /\
   (List.length (readlines ""%string) < 5)%nat) /\
  skip_header (readlines map_text) = ok (skipn 11 (readlines map_text)) /\
  NeutralMapFile (Some ""%string)
  = throw ValueError "invalid literal for int() with base 10".
Proof.
  assert (Hn : py_int (py_slice (nth 4 (readlines map_text) ""%string) 0 (-2)) = ok 1)
    by reflexivity.
  assert (Hfit : fits_long 1) by (unfold fits_long, long_max; lia).
  assert (Hlen : (List.length (readlines ""%string) < 5)%nat) by (cbn; lia).
  split; [split; [assumption|split; assumption]|].
  destruct header_length as (Hskip & _ & Hshort).
  split.
  - apply (Hskip (readlines map_text) 1 Hn Hfit).
  - apply (Hshort ""%string Hlen).
Defined.
